(** * migrator-cli: hook wrapping, script selection and command orchestration

    The first part embeds the program:
    - the fragment of JavaScript's promise semantics the code relies on
      (synchronous throws, promises, [await], [.then], [.catch],
      [try]/[finally], [Promise.all]), as resumptions run by a scheduler;
    - [DatabaseConfig.ts]: the record of per-database callbacks;
    - [wrapMigration];
    - [nameScript] and [shouldRun] of script-generator, modelled from the
      specification;
    - [cli.ts]: what yargs validates of a command, the command checks and
      the handlers, together with those of its multi-database revision;
    - probes, which replace the callbacks to log what a handler calls.

    The second part proves what the specification says of them. *)

From Stdlib Require Import List String Ascii Bool Arith Lia PeanoNat Permutation.
Import ListNotations.
Local Open Scope string_scope.
Local Open Scope list_scope.

Set Implicit Arguments.

(** ** JavaScript values the code manipulates *)

(** [new Error(message)]; every value thrown by the code under study or by
    its collaborators is an [Error]. *)
Inductive JsError : Type :=
| Error (message : string).

Definition message_of (e : JsError) : string :=
  match e with Error m => m end.

(** How a synchronous call completes: normally or by a throw; also how a
    promise settles: fulfilled or rejected. *)
Inductive outcome (A : Type) : Type :=
| Ok (a : A)
| Throw (e : JsError).
Arguments Throw {A} e.

(** JavaScript truthiness of a [string | undefined]. *)
Definition truthy (v : option string) : bool :=
  match v with
  | None => false
  | Some s => negb (s =? EmptyString)
  end.

(** [a ?? b] *)
Definition nullish {A : Type} (a b : option A) : option A :=
  match a with
  | Some _ => a
  | None => b
  end.

(** [Array.prototype.includes] on strings. *)
Definition includes (l : list string) (s : string) : bool :=
  existsb (String.eqb s) l.

(** [includes] when the searched value may be [undefined]: an array of
    strings never contains it. *)
Definition includes_opt (l : list string) (v : option string) : bool :=
  match v with
  | Some s => includes l s
  | None => false
  end.

(** [Array.prototype.join] *)
Fixpoint join (sep : string) (l : list string) : string :=
  match l with
  | [] => EmptyString
  | [x] => x
  | x :: rest => x ++ sep ++ join sep rest
  end.

(** The double-quote character, as a string. *)
Definition dquote : string := String (ascii_of_nat 34) EmptyString.

(** Template-literal rendering of a [string | undefined]. *)
Definition render (v : option string) : string :=
  match v with
  | Some s => s
  | None => "undefined"
  end.

(** An optional property of an object: missing, present and [undefined],
    or present with a value.  A spread [{ ...o }] copies the last two
    alike. *)
Inductive Property (A : Type) : Type :=
| Absent
| Undefined
| Value (a : A).
Arguments Absent {A}.
Arguments Undefined {A}.

(** The names every plain object inherits from [Object.prototype]:
    [o[name]] is a function (an object for [__proto__]) when [o] has no
    property of its own by that name. *)
Definition inherited_names : list string :=
  ["constructor"; "__defineGetter__"; "__defineSetter__"; "hasOwnProperty";
   "__lookupGetter__"; "__lookupSetter__"; "isPrototypeOf";
   "propertyIsEnumerable"; "toString"; "valueOf"; "__proto__";
   "toLocaleString"].

(** ** Promises as resumptions

    [W] is the state of everything outside the code under study (databases,
    file system, console).  A promise is either settled or pending; a
    pending promise holds the work that remains, cut at the points where
    the event loop can switch to something else.  Running one piece is one
    turn of the event loop; the number given to a piece is the scheduler's
    choice for that turn, which [Promise.all] uses to pick the promise that
    progresses. *)
Section Js.

Variable W : Type.

Local Unset Elimination Schemes.
Inductive Promise (A : Type) : Type :=
| Settled (r : outcome A)
| Pending (k : nat -> W -> W * Promise A).
Local Set Elimination Schemes.

Arguments Settled {A} r.
Arguments Pending {A} k.

Fixpoint Promise_induction (A : Type) (P : Promise A -> Prop)
    (HS : forall r, P (Settled r))
    (HP : forall k, (forall c w, P (snd (k c w))) -> P (Pending k))
    (p : Promise A) {struct p} : P p :=
  match p with
  | Settled r => HS r
  | Pending k =>
      HP k (fun c w =>
              match k c w as x return P (snd x) with
              | (_, p') => Promise_induction P HS HP p'
              end)
  end.

(** A synchronous call: it changes the world and returns or throws. *)
Definition Sync (A : Type) : Type := W -> W * outcome A.

(** A call to an [async] function, or to a function declared to return a
    promise: it runs up to its first suspension and hands back a promise. *)
Definition Async (A : Type) : Type := W -> W * Promise A.

Definition resolved {A : Type} (a : A) : Async A :=
  fun w => (w, Settled (Ok a)).

Definition rejected {A : Type} (e : JsError) : Async A :=
  fun w => (w, Settled (Throw e)).

(** The reaction to a settlement runs in a later turn, whatever the
    settlement: this is [p.then(onOk, onErr)] with both reactions given
    by [f]. *)
Fixpoint on_settle {A B : Type} (p : Promise A) (f : outcome A -> Async B)
    {struct p} : Promise B :=
  match p with
  | Settled r => Pending (fun _ w => f r w)
  | Pending k =>
      Pending (fun c w =>
                 match k c w with
                 | (w', p') => (w', on_settle p' f)
                 end)
  end.

(** [p.then(f)] *)
Definition then_ {A B : Type} (p : Promise A) (f : A -> Async B) : Promise B :=
  on_settle p (fun r => match r with
                        | Ok a => f a
                        | Throw e => rejected e
                        end).

(** [p.catch(h)] *)
Definition catch_ {A : Type} (p : Promise A) (h : JsError -> Async A) : Promise A :=
  on_settle p (fun r => match r with
                        | Ok a => resolved a
                        | Throw e => h e
                        end).

(** [const x = await m; f x] inside an [async] function. *)
Definition bind {A B : Type} (m : Async A) (f : A -> Async B) : Async B :=
  fun w => match m w with
           | (w', p) => (w', then_ p f)
           end.

(** [try { await body } finally { fin }] inside an [async] function whose
    [finally] block has no [return]: the block runs on either settlement;
    when the block completes normally the settlement of the [try] stands,
    when the block throws its error replaces that settlement. *)
Definition try_finally {A : Type} (body : Async A) (fin : Async unit) : Async A :=
  fun w => match body w with
           | (w', p) =>
               (w', on_settle p (fun r =>
                      bind fin (fun _ => fun w'' => (w'', Settled r))))
           end.

(** A call that may throw before it returns its promise, made from the
    body of an [async] function: the throw rejects that function's
    promise. *)
Definition call {A : Type} (c : Sync (Promise A)) : Async A :=
  fun w => match c w with
           | (w', Ok p) => (w', p)
           | (w', Throw e) => (w', Settled (Throw e))
           end.

(** A call that hands back the promise of an [async] function: it cannot
    throw. *)
Definition returning {A : Type} (m : Async A) : Sync (Promise A) :=
  fun w => match m w with
           | (w', p) => (w', Ok p)
           end.

(** The end of the body of an [async] function, without any [await] left:
    what it returns fulfils the function's promise, what it throws rejects
    it. *)
Definition finish {A : Type} (c : Sync A) : Async A :=
  fun w => match c w with
           | (w', r) => (w', Settled r)
           end.

(** [Promise.all([pa, pb])] on two promises already obtained: rejected as
    soon as one of them is, fulfilled once both are.  While both are
    pending the scheduler's choice decides which one progresses. *)
Fixpoint join2 {A B : Type} (pa : Promise A) : Promise B -> Promise (A * B) :=
  fix join2_right (pb : Promise B) : Promise (A * B) :=
    match pa, pb with
    | Settled (Throw e), _ => Settled (Throw e)
    | Settled (Ok _), Settled (Throw e) => Settled (Throw e)
    | Settled (Ok a), Settled (Ok b) => Settled (Ok (a, b))
    | Settled (Ok _), Pending kb =>
        Pending (fun c w =>
                   match kb c w with
                   | (w', pb') => (w', join2_right pb')
                   end)
    | Pending ka, Settled (Throw e) => Settled (Throw e)
    | Pending ka, Settled (Ok _) =>
        Pending (fun c w =>
                   match ka c w with
                   | (w', pa') => (w', join2 pa' pb)
                   end)
    | Pending ka, Pending kb =>
        Pending (fun c w =>
                   if Nat.even c
                   then match ka (Nat.div2 c) w with
                        | (w', pa') => (w', join2 pa' pb)
                        end
                   else match kb (Nat.div2 c) w with
                        | (w', pb') => (w', join2_right pb')
                        end)
    end.

(** [Promise.all([a(), b()])] in an [async] function: both calls are made,
    in order, before anything is awaited. *)
Definition all2 {A B : Type} (ca : Sync (Promise A)) (cb : Sync (Promise B))
    : Async (A * B) :=
  fun w => match ca w with
           | (w1, Throw e) => (w1, Settled (Throw e))
           | (w1, Ok pa) =>
               match cb w1 with
               | (w2, Throw e) => (w2, Settled (Throw e))
               | (w2, Ok pb) => (w2, join2 pa pb)
               end
           end.

(** A promise with its fulfilment value transformed; no turn is added. *)
Fixpoint pmap {A B : Type} (f : A -> B) (p : Promise A) {struct p} : Promise B :=
  match p with
  | Settled (Ok a) => Settled (Ok (f a))
  | Settled (Throw e) => Settled (Throw e)
  | Pending k =>
      Pending (fun c w =>
                 match k c w with
                 | (w', p') => (w', pmap f p')
                 end)
  end.

(** [Promise.all(promises)] on promises already obtained. *)
Fixpoint all_list {A : Type} (promises : list (Promise A)) : Promise (list A) :=
  match promises with
  | [] => Settled (Ok [])
  | p :: rest => pmap (fun ar => fst ar :: snd ar) (join2 p (all_list rest))
  end.

(** [items.map(f)] for an [f] that returns a promise: the calls are made
    one after the other, each up to its first suspension. *)
Fixpoint start_all {A : Type} (calls : list (Async A)) (w : W)
    : W * list (Promise A) :=
  match calls with
  | [] => (w, [])
  | m :: rest =>
      match m w with
      | (w1, p) =>
          match start_all rest w1 with
          | (w2, ps) => (w2, p :: ps)
          end
      end
  end.

(** [items.map(f)] for a plain [f]: the calls are made one after the
    other; the first that throws ends the map, and the calls after it are
    not made. *)
Fixpoint call_all {A : Type} (calls : list (Sync A)) (w : W)
    : W * outcome (list A) :=
  match calls with
  | [] => (w, Ok [])
  | c :: rest =>
      match c w with
      | (w1, Throw e) => (w1, Throw e)
      | (w1, Ok a) =>
          match call_all rest w1 with
          | (w2, Throw e) => (w2, Throw e)
          | (w2, Ok others) => (w2, Ok (a :: others))
          end
      end
  end.

(** Running a promise to its settlement under a schedule (one choice per
    turn, 0 once the list is used up).  Returns the final world, the
    settlement and the unused part of the schedule. *)
Fixpoint run {A : Type} (p : Promise A) (sch : list nat) (w : W) {struct p}
    : W * outcome A * list nat :=
  match p with
  | Settled r => (w, r, sch)
  | Pending k =>
      match k (hd 0 sch) w with
      | (w', p') => run p' (tl sch) w'
      end
  end.

Definition exec {A : Type} (m : Async A) (sch : list nat) (w : W)
    : W * outcome A * list nat :=
  match m w with
  | (w', p) => run p sch w'
  end.

(** Tasks run one after the other: each is started from the world its
    predecessor left when it settled, and a rejection skips what
    follows.  [run_chain] shows that a chain of [then]s runs this way. *)
Fixpoint continue (tasks : list (unit -> Async unit))
    (r : outcome unit) (w : W) (sch : list nat) : W * outcome unit * list nat :=
  match tasks with
  | [] => (w, r, sch)
  | task :: rest =>
      match r with
      | Ok _ =>
          match exec (task tt) (tl sch) w with
          | (w1, r1, sch1) => continue rest r1 w1 sch1
          end
      | Throw e => continue rest (Throw e) w (tl sch)
      end
  end.

End Js.

Arguments Settled {W A} r.
Arguments Pending {W A} k.
Arguments resolved {W A} a.
Arguments rejected {W A} e.

(** ** umzug's interface, as far as the code uses it *)
Section Umzug.

Variables W Ctx : Type.

(** [MigrationParams<T>] *)
Record MigrationParams : Type := {
  mp_name : string;
  mp_path : option string;
  mp_context : Ctx
}.

(** [RunnableMigration<T>]: [path] and [down] are optional.  The spread
    in cli.ts tells a [path] that is missing from one that is present and
    [undefined]; for [down] the code only tests truthiness. *)
Record RunnableMigration : Type := {
  name : string;
  path : Property string;
  up : MigrationParams -> Async W unit;
  down : option (MigrationParams -> Async W unit)
}.

(** The argument of [migrator.up(...)]. *)
Inductive UpOptions : Type :=
| UpAll                                   (* up() *)
| UpStep (step : nat)                     (* up({ step }) *)
| UpMigrations (names : list (option string))   (* up({ migrations }) *)
| UpTo (to : option string).              (* up({ to }) *)

(** The argument of [migrator.create(...)]. *)
Record CreateOptions : Type := {
  co_name : string;
  co_allowExtension : string;
  co_prefix : string;
  co_skipVerify : bool
}.

End Umzug.

(** ** wrap-migration *)
Section WrapMigration.

Variables W Ctx : Type.

(** [{ runBefore?: () => void | Promise<void>; runAfter?: ... }]: a hook
    may throw, return nothing or return a promise. *)
Record Hooks : Type := {
  runBefore : option (Sync W (Promise W unit));
  runAfter : option (Sync W (Promise W unit))
}.

(** [await hook?.()] *)
Definition await_hook (hook : option (Sync W (Promise W unit))) : Async W unit :=
  match hook with
  | Some f => call f
  | None => resolved tt
  end.

(** The body shared by the wrapped [up] and [down]. *)
Definition wrapped_step (hooks : Hooks)
    (step : MigrationParams Ctx -> Async W unit)
    (params : MigrationParams Ctx) : Async W unit :=
  bind (await_hook (runBefore hooks)) (fun _ =>
  bind (step params) (fun _ =>
  bind (await_hook (runAfter hooks)) (fun _ =>
  resolved tt))).

Definition wrapMigration (hooks : Hooks) (migration : RunnableMigration W Ctx)
    : RunnableMigration W Ctx :=
  {| name := name migration;
     path := path migration;
     up := wrapped_step hooks (up migration);
     down := match down migration with
             | Some migration_down => Some (wrapped_step hooks migration_down)
             | None => None
             end |}.

End WrapMigration.

(** ** DatabaseConfig *)
Section DatabaseConfig.

Variables W Ctx Storage : Type.

(** Environments reach the callbacks as the command line gave them: a
    string, or [undefined] when a call passes none.  A callback is a plain
    call, which completes by returning (a value or a promise) or by
    throwing before it returns: so are [createContext], [createStorage],
    [prepareDbAndDisconnect] and [dropDbAndDisconnect], whose callers
    behave differently in the two cases, and [resolveScript], which returns
    a runnable.  [destroyContext] and [destroyStorage] are only ever
    awaited at once, where a throw and a rejection are the same to the
    caller: they are given as the awaited call.  [getTemplate] builds a
    text. *)
Record DatabaseConfig : Type := {
  defaultScriptFormat : string;
  supportedScriptFormats : list string;
  supportedEnvironments : list string;
  defaultEnvironment : option string;
  scriptsDirectory : string;
  resolveScript : MigrationParams Ctx -> Sync W (RunnableMigration W Ctx);
  getTemplate : option (string -> string);
  prepareDbAndDisconnect : option string -> Sync W (Promise W unit);
  dropDbAndDisconnect : option string -> Sync W (Promise W unit);
  createContext : option string -> Sync W (Promise W Ctx);
  createStorage : option string -> Sync W (Promise W Storage);
  destroyContext : Ctx -> Async W unit;
  destroyStorage : option (Storage -> Async W unit)
}.

End DatabaseConfig.

(** ** script-generator *)

(** [s.split(sep)] for a one-character separator. *)
Fixpoint split_on (sep : ascii) (s : string) : list string :=
  match s with
  | EmptyString => [EmptyString]
  | String c rest =>
      if Ascii.eqb c sep
      then EmptyString :: split_on sep rest
      else match split_on sep rest with
           | first :: others => String c first :: others
           | [] => [String c EmptyString]
           end
  end.


(** [s.startsWith(p)] *)
Fixpoint starts_with (p s : string) : bool :=
  match p, s with
  | EmptyString, _ => true
  | String _ _, EmptyString => false
  | String a p', String b s' => Ascii.eqb a b && starts_with p' s'
  end.

(** Is [needle] a substring of [hay]? *)
Fixpoint contains (needle hay : string) : bool :=
  starts_with needle hay ||
  match hay with
  | EmptyString => false
  | String _ rest => contains needle rest
  end.

(** Modelled from the spec: script-generator's [scriptTypes], the two kinds
    of script (the module is imported by cli.ts and is not among the
    sources). *)
Inductive ScriptType : Type :=
| migration
| seed.

Definition scriptTypes : list ScriptType := [migration; seed].

(** Modelled from the spec: the type marker of a name, the word for the
    kind. *)
Definition type_marker (type : ScriptType) : string :=
  match type with
  | migration => "migration"
  | seed => "seed"
  end.

(** Modelled from the spec: the characters section 4.1 keeps out of a
    name, those unsafe in a file system path: the slash, the backslash and
    the null character. *)
Definition unsafe_in_path (c : ascii) : bool :=
  Ascii.eqb c "/" || Ascii.eqb c (ascii_of_nat 92) || Ascii.eqb c zero.

(** Modelled from the spec: in the free-form name, which nothing reads
    back, each unsafe character is replaced by a dash. *)
Fixpoint sanitize (s : string) : string :=
  match s with
  | EmptyString => EmptyString
  | String c rest => String (if unsafe_in_path c then "-"%char else c) (sanitize rest)
  end.

(** Modelled from the spec: the environment marker.  Section 4.2 compares
    the marker with the target environment exactly, so the marker must
    tell any two environments apart, and it must stand between separators
    without holding one: the unsafe characters, the dot and the percent
    sign are written as a percent sign and a letter, every other character
    as itself. *)
Definition escape_code (c : ascii) : option ascii :=
  if Ascii.eqb c "." then Some "d"%char
  else if Ascii.eqb c "/" then Some "s"%char
  else if Ascii.eqb c (ascii_of_nat 92) then Some "b"%char
  else if Ascii.eqb c zero then Some "z"%char
  else if Ascii.eqb c "%" then Some "p"%char
  else None.

Fixpoint environment_marker (environment : string) : string :=
  match environment with
  | EmptyString => EmptyString
  | String c rest =>
      match escape_code c with
      | Some code => String "%" (String code (environment_marker rest))
      | None => String c (environment_marker rest)
      end
  end.

(** Modelled from the spec: script-generator's [nameScript] (not among the
    sources).  Section 4.1: the name is a type marker, an environment marker
    present only for seeds, and the free-form name, without characters
    unsafe in a path; the timestamp prefix and the extension are added by
    the caller.  The spec fixes no separator; the model uses the dot, the
    separator umzug puts after its timestamp prefix and the one before the
    extension. *)
Definition nameScript (type : ScriptType) (environment : option string)
    (freeformName : string) : string :=
  match type with
  | migration => type_marker migration ++ "." ++ sanitize freeformName
  | seed => type_marker seed ++ "." ++ environment_marker (render environment) ++ "." ++
            sanitize freeformName
  end.



(** Modelled from the spec: the decoding of the Namer's encoding out of the
    dot-separated components that precede the extension.  The components
    of the timestamp are skipped up to the type marker; a seed carries its
    environment marker in the next component; at least one component of
    free-form name must follow.  Anything else is malformed. *)
Fixpoint parse_script_name (components : list string)
    : option (ScriptType * option string) :=
  match components with
  | [] => None
  | c :: rest =>
      if c =? type_marker migration then
        match rest with
        | _ :: _ => Some (migration, None)
        | [] => None
        end
      else if c =? type_marker seed then
        match rest with
        | env :: _ :: _ => Some (seed, Some env)
        | _ => None
        end
      else parse_script_name rest
  end.

(** What is left of [l] after [prefix], when [l] starts with it. *)
Fixpoint strip_prefix (prefix l : list string) : option (list string) :=
  match prefix with
  | [] => Some l
  | p :: prefix' =>
      match l with
      | x :: l' => if p =? x then strip_prefix prefix' l' else None
      | [] => None
      end
  end.

(** The components of a file name that precede the extension [format],
    when the name ends with a dot and [format]; a format may itself hold
    dots. *)
Definition stem_before (format : string) (components : list string)
    : option (list string) :=
  option_map (@rev string)
             (strip_prefix (rev (split_on "." format)) (rev components)).

(** Modelled from the spec: is a script with these components before its
    extension eligible for the target environment?  A migration is, in
    every environment; a seed only when its marker is the target's; a
    malformed name is not. *)
Definition eligible (targetEnvironment : option string) (stem : list string) : bool :=
  match parse_script_name stem with
  | Some (migration, _) => true
  | Some (seed, Some marker) =>
      match targetEnvironment with
      | Some target => marker =? environment_marker target
      | None => false
      end
  | Some (seed, None) => false
  | None => false
  end.

(** Modelled from the spec: script-generator's [shouldRun] (not among the
    sources).  Section 4.2: false when the trailing extension is not one of
    the supported formats; a migration is eligible in every environment; a
    seed only when its marker equals the target environment; a malformed
    name is excluded.  The file is the last segment of the path. *)
Definition shouldRun (targetEnvironment : option string)
    (supportedFormats : list string) (filePath : string) : bool :=
  let file := last (split_on "/" filePath) EmptyString in
  existsb (fun format =>
             match stem_before format (split_on "." file) with
             | Some stem => eligible targetEnvironment stem
             | None => false
             end)
          supportedFormats.

(** ** cli.ts *)

(** Parsed arguments of [add <db> <type> <name> [--env] [--format]]. *)
Record AddArgs : Type := {
  add_db : string;
  add_type : ScriptType;
  add_name : string;
  add_env : option string;
  add_format : option string
}.

(** Parsed arguments of [apply-scripts [target] [name] --db --env]. *)
Record ApplyArgs : Type := {
  apply_target : string;
  apply_name : option string;
  apply_db : string;
  apply_env : option string
}.

(** Parsed arguments of [clean], [drop] and [create]: [--db --env]. *)
Record DbEnvArgs : Type := {
  arg_db : string;
  arg_env : option string
}.

(** [new Umzug({ migrations, context, storage, logger: console })];
    constructing the migrator calls nothing. *)
Record UmzugConfig (W Ctx Storage : Type) : Type := {
  migrations : Ctx -> Async W (list (RunnableMigration W Ctx));
  context : Ctx;
  storage : Storage
}.

(** [new Umzug({ migrations() { return [] }, create: { template, folder },
    context: {}, logger: console })] *)
Record UmzugCreateConfig : Type := {
  create_template : string -> list (string * string);
  create_folder : string
}.

(** The four targets of [apply-scripts]. *)
Definition targets : list string := ["remaining"; "next"; "only"; "until"].

Section Cli.

Variables W Ctx Storage : Type.

(** The engine and the Node functions the handlers call. *)
Variable Umzug_up : UmzugConfig W Ctx Storage -> UpOptions -> Async W unit.
Variable Umzug_create : UmzugCreateConfig -> CreateOptions -> Async W unit.
Variable globAsync : string -> Async W (list string).
Variable path_resolve : string -> string.
Variable path_basename : string -> string.

(** [Object.entries] of the loaded configuration's databases. *)
Variable dbs : list (string * DatabaseConfig W Ctx Storage).

Let Db : Type := DatabaseConfig W Ctx Storage.

(** [dbs[name]] *)
Fixpoint lookup (entries : list (string * Db)) (key : string) : option Db :=
  match entries with
  | [] => None
  | (k, db) :: rest => if k =? key then Some db else lookup rest key
  end.

(** What is thrown by reading a property of [undefined], by calling
    [undefined], or by calling a method on it. *)
Definition TypeError : JsError :=
  Error "TypeError: Cannot read properties of undefined".

(** [dbs] is a plain object: for a name it has no entry for, [dbs[name]]
    is [undefined], unless the name is one every object inherits; it is
    then a function, or an object, none of whose properties is a
    [DatabaseConfig]'s. *)
Definition inherited (key : string) : bool := includes inherited_names key.

(** Using, of [dbs[key]], what only a configured database has: its
    [supportedEnvironments], [supportedScriptFormats] or callbacks.  For
    any other name the use throws: a property of [undefined] is read, or
    a property that is [undefined] is called or read further. *)
Definition with_db {A : Type} (key : string) (k : Db -> outcome A) : outcome A :=
  match lookup dbs key with
  | Some db => k db
  | None => Throw TypeError
  end.

Definition makeInvalidEnvironmentError (db : Db) (env : option string) : JsError :=
  Error ("Environment " ++ dquote ++ render env ++ dquote ++
         " is not a valid environment. Valid environments are: " ++
         join ", " (supportedEnvironments db) ++ ".").

(** [argv.env ?? db.defaultEnvironment]: the database is read only when
    there is no flag; a name that is merely inherited has no
    [defaultEnvironment]. *)
Definition getEnv (db : string) (env : option string) : outcome (option string) :=
  match env with
  | Some given => Ok (Some given)
  | None =>
      match lookup dbs db with
      | Some config => Ok (defaultEnvironment config)
      | None => if inherited db then Ok None else Throw TypeError
      end
  end.

(** *** add *)

Definition seed_needs_environment : JsError :=
  Error ("Environment is required when adding a seed file, to indicate" ++
         "in which environment the seed should be applied.").

Definition migration_forbids_environment : JsError :=
  Error ("You cannot provide an environment when creating a migration; " ++
         "every migration is run in every environment for schema consistency.").

Definition unsupported_format (db format : string) : JsError :=
  Error ("The db " ++ dquote ++ db ++ dquote ++ " doesn't support ." ++
         format ++ " files as scripts.").

Definition is_seed (type : ScriptType) : bool :=
  match type with seed => true | migration => false end.

Definition is_migration (type : ScriptType) : bool :=
  match type with migration => true | seed => false end.

Definition add_check (opts : AddArgs) : outcome bool :=
  if is_seed (add_type opts) && negb (truthy (add_env opts)) then
    Throw seed_needs_environment
  else if is_migration (add_type opts) && truthy (add_env opts) then
    Throw migration_forbids_environment
  else
    match getEnv (add_db opts) (add_env opts) with
    | Throw e => Throw e
    | Ok env =>
        match (if truthy env
               then with_db (add_db opts) (fun db =>
                      if negb (includes_opt (supportedEnvironments db) env)
                      then Throw (makeInvalidEnvironmentError db env)
                      else Ok true)
               else Ok true) with
        | Throw e => Throw e
        | Ok _ =>
            match add_format opts with
            | Some format =>
                with_db (add_db opts) (fun db =>
                  if negb (includes (supportedScriptFormats db) format)
                  then Throw (unsupported_format (add_db opts) format)
                  else Ok true)
            | None => Ok true
            end
        end
    end.

(** The handler destructures [dbs[db]], which throws when there is no such
    database.  For a name that [dbs] merely inherits nothing is thrown
    yet: the folder and the format are [undefined] and umzug is asked to
    create a file from them, which the record of a migrator cannot hold;
    the model fails there as well.  The choices of the positional admit
    neither kind of name. *)
Definition add_handler (opts : AddArgs) : Async W unit :=
  match lookup dbs (add_db opts) with
  | None => rejected TypeError
  | Some db =>
      match getEnv (add_db opts) (add_env opts) with
      | Throw e => rejected e
      | Ok env =>
          let migrator :=
            {| create_template := fun filePath =>
                 [(filePath, match getTemplate db with
                             | Some template => template filePath
                             | None => EmptyString
                             end)];
               create_folder := scriptsDirectory db |} in
          let format :=
            match add_format opts with
            | Some format => format
            | None => defaultScriptFormat db
            end in
          bind (Umzug_create migrator
                  {| co_name := nameScript (add_type opts) env (add_name opts)
                                ++ "." ++ format;
                     co_allowExtension := "." ++ format;
                     co_prefix := "TIMESTAMP";
                     co_skipVerify := true |})
               (fun _ => resolved tt)
      end
  end.

(** *** apply-scripts *)

Definition name_without_specific_target : JsError :=
  Error ("Can't provide a general script/set of scripts to run (with " ++
         dquote ++ "next" ++ dquote ++ " or " ++ dquote ++ "remaining" ++ dquote ++
         ") and then also provide the name of a " ++
         "specific script.").

Definition specific_target_without_name : JsError :=
  Error ("Must provide a script name when you use " ++
         dquote ++ "only" ++ dquote ++ "/" ++ dquote ++ "until" ++ dquote ++ " to " ++
         "apply (only or up to) a specific script.").

Definition needsSpecificScript (target : string) : bool :=
  (target =? "only") || (target =? "until").

Definition apply_check (opts : ApplyArgs) : outcome bool :=
  if negb (needsSpecificScript (apply_target opts)) && truthy (apply_name opts) then
    Throw name_without_specific_target
  else if needsSpecificScript (apply_target opts) && negb (truthy (apply_name opts)) then
    Throw specific_target_without_name
  else
    match getEnv (apply_db opts) (apply_env opts) with
    | Throw e => Throw e
    | Ok env =>
        with_db (apply_db opts) (fun db =>
          if negb (includes_opt (supportedEnvironments db) env)
          then Throw (makeInvalidEnvironmentError db env)
          else Ok true)
    end.

(** The glob pattern of a database's scripts. *)
Definition supportedExtensions (supportedScriptFormats : list string) : string :=
  if Nat.ltb 1 (List.length supportedScriptFormats)
  then "{" ++ join "," supportedScriptFormats ++ "}"
  else render (hd_error supportedScriptFormats).

(** [{ path: filepath, ...db.resolveScript({ name, path: filepath,
    context }) }]: the properties of the resolved script, and the file path
    as [path] unless the script has a [path] of its own, which may be
    [undefined]. *)
Definition resolve_path (db : Db) (context : Ctx) (unresolvedPath : string)
    : Sync W (RunnableMigration W Ctx) :=
  fun w =>
    let filepath := path_resolve unresolvedPath in
    let basename := path_basename filepath in
    match resolveScript db {| mp_name := basename;
                              mp_path := Some filepath;
                              mp_context := context |} w with
    | (w', Throw e) => (w', Throw e)
    | (w', Ok script) =>
        (w', Ok {| name := name script;
                   path := match path script with
                           | Absent => Value filepath
                           | own => own
                           end;
                   up := up script;
                   down := down script |})
    end.

(** The [migrations] callback handed to umzug: list the scripts of the
    database, keep those [shouldRun] selects for the environment, resolve
    each into a runnable. *)
Definition discover (db : Db) (env : option string) (context : Ctx)
    : Async W (list (RunnableMigration W Ctx)) :=
  bind (globAsync (scriptsDirectory db ++ "/*." ++
                   supportedExtensions (supportedScriptFormats db)))
       (fun matchingFilePaths =>
          finish (call_all (map (resolve_path db context)
                                (filter (shouldRun env (supportedScriptFormats db))
                                        matchingFilePaths)))).

(** The [switch (target)] of the handler; a target outside the four
    choices matches no case. *)
Definition engine_call (migrator : UmzugConfig W Ctx Storage)
    (target : string) (name : option string) : Async W unit :=
  if target =? "remaining" then bind (Umzug_up migrator UpAll) (fun _ => resolved tt)
  else if target =? "next" then bind (Umzug_up migrator (UpStep 1)) (fun _ => resolved tt)
  else if target =? "only" then bind (Umzug_up migrator (UpMigrations [name])) (fun _ => resolved tt)
  else if target =? "until" then bind (Umzug_up migrator (UpTo name)) (fun _ => resolved tt)
  else resolved tt.

(** The [finally] block: [destroyContext], then [destroyStorage] when the
    database has one. *)
Definition teardown (db : Db) (context : Ctx) (storage : Storage) : Async W unit :=
  bind (destroyContext db context) (fun _ =>
    match destroyStorage db with
    | Some destroy => bind (destroy storage) (fun _ => resolved tt)
    | None => resolved tt
    end).

(** One database's run: acquire context and storage together, hand the
    engine its configuration, call it, tear down.  [created_for] is what
    the two factories are called with: the environment in cli.ts, nothing
    in the multi-database revision. *)
Definition apply_to (db : Db) (created_for env : option string)
    (target : string) (name : option string) : Async W unit :=
  bind (all2 (createContext db created_for) (createStorage db created_for))
       (fun acquired =>
          let migrator :=
            {| migrations := discover db env;
               context := fst acquired;
               storage := snd acquired |} in
          try_finally (engine_call migrator target name)
                      (teardown db (fst acquired) (snd acquired))).

Definition apply_handler (opts : ApplyArgs) : Async W unit :=
  match lookup dbs (apply_db opts) with
  | None => rejected TypeError
  | Some db =>
      match getEnv (apply_db opts) (apply_env opts) with
      | Throw e => rejected e
      | Ok env => apply_to db env env (apply_target opts) (apply_name opts)
      end
  end.

(** *** clean, drop, create *)

(** The check the three commands share. *)
Definition environment_check (opts : DbEnvArgs) : outcome bool :=
  match getEnv (arg_db opts) (arg_env opts) with
  | Throw e => Throw e
  | Ok env =>
      with_db (arg_db opts) (fun db =>
        if negb (includes_opt (supportedEnvironments db) env)
        then Throw (makeInvalidEnvironmentError db env)
        else Ok true)
  end.

(** [await drop(env).catch(() => {}); await prepare(env)]: [.catch] is
    called on the promise [drop] returns; when [drop] throws instead of
    returning one there is nothing to call it on, and the throw is the
    handler's. *)
Definition clean_database (db : Db) (env : option string) : Async W unit :=
  bind (fun w => match dropDbAndDisconnect db env w with
                 | (w', Throw e) => (w', Settled (Throw e))
                 | (w', Ok dropping) =>
                     (w', catch_ dropping (fun _ => resolved tt))
                 end)
       (fun _ => bind (call (prepareDbAndDisconnect db env)) (fun _ => resolved tt)).

Definition clean_handler (opts : DbEnvArgs) : Async W unit :=
  match lookup dbs (arg_db opts) with
  | None => rejected TypeError
  | Some db =>
      match getEnv (arg_db opts) (arg_env opts) with
      | Throw e => rejected e
      | Ok env => clean_database db env
      end
  end.

Definition drop_handler (opts : DbEnvArgs) : Async W unit :=
  match lookup dbs (arg_db opts) with
  | None => rejected TypeError
  | Some db =>
      match getEnv (arg_db opts) (arg_env opts) with
      | Throw e => rejected e
      | Ok env => bind (call (dropDbAndDisconnect db env)) (fun _ => resolved tt)
      end
  end.

Definition create_handler (opts : DbEnvArgs) : Async W unit :=
  match lookup dbs (arg_db opts) with
  | None => rejected TypeError
  | Some db =>
      match getEnv (arg_db opts) (arg_env opts) with
      | Throw e => rejected e
      | Ok env => bind (call (prepareDbAndDisconnect db env)) (fun _ => resolved tt)
      end
  end.

(** *** The command table *)

Inductive Command : Type :=
| Add (opts : AddArgs)
| Apply (opts : ApplyArgs)
| Clean (opts : DbEnvArgs)
| Drop (opts : DbEnvArgs)
| Create (opts : DbEnvArgs).

Definition check_failed : JsError := Error "Argument check failed".

(** yargs runs a command's check and calls its handler only when the
    check returned true; a check that throws, or returns false, fails the
    command. *)
Definition checked {A : Type} (check : A -> outcome bool)
    (handler : A -> Async W unit) (opts : A) : Async W unit :=
  match check opts with
  | Throw e => rejected e
  | Ok false => rejected check_failed
  | Ok true => handler opts
  end.

(** The part of a command that cli.ts writes: its check, then its handler.
    What yargs validates before them is in [validate] below, and
    [command_line] puts the three together. *)
Definition run_command (command : Command) : Async W unit :=
  match command with
  | Add opts => checked add_check add_handler opts
  | Apply opts => checked apply_check apply_handler opts
  | Clean opts => checked environment_check clean_handler opts
  | Drop opts => checked environment_check drop_handler opts
  | Create opts => checked environment_check create_handler opts
  end.

(** The database a command names and the environment its flag gives. *)
Definition command_db (command : Command) : string :=
  match command with
  | Add opts => add_db opts
  | Apply opts => apply_db opts
  | Clean opts | Drop opts | Create opts => arg_db opts
  end.

Definition command_env (command : Command) : option string :=
  match command with
  | Add opts => add_env opts
  | Apply opts => apply_env opts
  | Clean opts | Drop opts | Create opts => arg_env opts
  end.

(** *** The multi-database revision of the handlers

    In this revision [--db] is an array, the factories and the
    create/drop callbacks are called without arguments, and each handler
    works on the entries of the configuration whose name is among the
    flags. *)

Definition selected (optDbs : list string) : list (string * Db) :=
  filter (fun entry => includes optDbs (fst entry)) dbs.

(** [migrationTasks.reduce((res, task) => res.then(task), Promise.resolve())] *)
Definition in_sequence (tasks : list (unit -> Async W unit)) : Promise W unit :=
  fold_left (fun res task => then_ res task) tasks (Settled (Ok tt)).

Definition multi_apply_handler (target : string) (name env : option string)
    (optDbs : option (list string)) : Async W unit :=
  let migrationTasks :=
    map (fun entry => fun _ : unit => apply_to (snd entry) None env target name)
        (selected (match optDbs with Some l => l | None => [] end)) in
  fun w => (w, in_sequence migrationTasks).

(** [await Promise.all(entries.filter(...).map(async (entry) => ...))]:
    the tasks are [async] functions, each runs up to its first suspension
    when the map calls it, and none throws into the map. *)
Definition for_each_selected (optDbs : list string) (f : Db -> Async W unit)
    : Async W unit :=
  fun w =>
    match start_all (map (fun entry => f (snd entry)) (selected optDbs)) w with
    | (w', promises) => (w', then_ (all_list promises) (fun _ => resolved tt))
    end.

(** [await Promise.all(entries.filter(...).map((entry) => f(entry)))] for a
    plain callback: a call that throws ends the map, the databases after
    it are not called, and the handler rejects with what was thrown. *)
Definition call_each_selected (optDbs : list string)
    (f : Db -> Sync W (Promise W unit)) : Async W unit :=
  fun w =>
    match call_all (map (fun entry => f (snd entry)) (selected optDbs)) w with
    | (w', Throw e) => (w', Settled (Throw e))
    | (w', Ok promises) => (w', then_ (all_list promises) (fun _ => resolved tt))
    end.

Definition multi_clean_handler (optDbs : list string) : Async W unit :=
  for_each_selected optDbs (fun db => clean_database db None).

Definition multi_drop_handler (optDbs : list string) : Async W unit :=
  call_each_selected optDbs (fun db => dropDbAndDisconnect db None).

Definition multi_create_handler (optDbs : list string) : Async W unit :=
  call_each_selected optDbs (fun db => prepareDbAndDisconnect db None).

End Cli.

(** ** cli.ts: loading the configuration *)

(** What an [import(...)] rejects with: an error and its [code] property,
    if it has one. *)
Record Thrown : Type := {
  thrown_code : option string;
  thrown_error : JsError
}.

Definition ERR_MODULE_NOT_FOUND : string := "ERR_MODULE_NOT_FOUND".

(** [e?.code != "ERR_MODULE_NOT_FOUND"] *)
Definition other_than_not_found (e : Thrown) : bool :=
  match thrown_code e with
  | Some code => negb (code =? ERR_MODULE_NOT_FOUND)
  | None => true
  end.

(** [new Error("Could not find ...")]; a new error has no [code]. *)
Definition missing_config : Thrown :=
  {| thrown_code := None;
     thrown_error := Error ("Could not find .migrator.config.mjs or " ++
                            ".migrator.config.js in current directory") |}.

(** What reading [config.databases] throws when the module has no default
    export. *)
Definition no_default_export : Thrown :=
  {| thrown_code := None;
     thrown_error := Error "TypeError: Cannot read properties of undefined" |}.

Section Loading.

Variables W D : Type.

(** [await import(path)]: the world changes and a module is obtained, or
    the import rejects.  The awaits of the loader follow one another, so
    plain state passing is enough here. *)
Definition Import (M : Type) : Type := string -> W -> W * (M + Thrown).

(** [path.resolve(process.cwd(), file)] *)
Variable resolve_in_cwd : string -> string.

(** cli.ts: a module is its default export, if any, whose [databases] are
    returned.  [.mjs] first; [.js] only when [.mjs] is not found; an error
    other than not-found is rethrown as it is. *)
Definition load_databases (import : Import (option D)) (w : W) : W * (D + Thrown) :=
  match import (resolve_in_cwd "./.migrator.config.mjs") w with
  | (w1, inl (Some databases)) => (w1, inl databases)
  | (w1, inl None) => (w1, inr no_default_export)
  | (w1, inr e) =>
      if other_than_not_found e then (w1, inr e)
      else
        match import (resolve_in_cwd "./.migrator.config.js") w1 with
        | (w2, inl (Some databases)) => (w2, inl databases)
        | (w2, inl None) => (w2, inr no_default_export)
        | (w2, inr e') =>
            (w2, inr (if other_than_not_found e' then e' else missing_config))
        end
  end.

(** The multi-database revision: the module itself is the configuration;
    [.js] is tried after any failure of [.mjs], and any failure of [.js]
    is reported as a missing configuration. *)
Definition multi_load_databases (import : Import D) (w : W) : W * (D + Thrown) :=
  match import (resolve_in_cwd ".migrator.config.mjs") w with
  | (w1, inl module) => (w1, inl module)
  | (w1, inr _) =>
      match import (resolve_in_cwd ".migrator.config.js") w1 with
      | (w2, inl module) => (w2, inl module)
      | (w2, inr _) => (w2, inr missing_config)
      end
  end.

End Loading.

(** ** cli.ts: the choices given to yargs *)
Section Choices.

Variables W Ctx Storage : Type.
Variable dbs : list (string * DatabaseConfig W Ctx Storage).

(** [dbOpt.choices]: [Object.keys(dbs)] *)
Definition dbOpt_choices : list string := map fst dbs.

(** [formatOpt.choices]:
    [Object.values(dbs).flatMap((it) => it.supportedScriptFormats)] *)
Definition formatOpt_choices : list string :=
  flat_map (fun entry => supportedScriptFormats (snd entry)) dbs.

End Choices.

(** ** cli.ts: the command line

    yargs (version 17, where a check is a middleware that runs once the
    arguments are validated) validates the options a command declares
    before it runs the command's check: an option declared with [demand]
    (or [required]) must be there, and the value of an option declared
    with [choices] must be one of them; a missing option is reported first.
    A command that fails the validation fails like one that fails its
    check: the handler is not called.  Every command declares [db] as
    required, and the records of arguments hold one; the type of [add] is
    one of [scriptTypes], the only values its record can hold. *)

(** yargs's message for a demanded option that is missing, and the same
    when the option is demanded with a message of the program's, which
    yargs puts on a line of its own. *)
Definition missing_required_argument (option : string) : JsError :=
  Error ("Missing required argument: " ++ option).



(** The first line of yargs's message for values outside the choices; the
    message goes on to list the arguments concerned, each with the value
    given and its choices. *)
Definition invalid_values : JsError := Error "Invalid values:".

(** [demand: true] on [--env]: the flag must be there, with whatever
    value. *)
Definition demanded_env (env : option string) (rest : outcome unit) : outcome unit :=
  match env with
  | Some _ => rest
  | None => Throw (missing_required_argument "env")
  end.

(** [choices] on the options given. *)
Definition among_choices (valid : bool) : outcome unit :=
  if valid then Ok tt else Throw invalid_values.

Section CommandLine.

Variables W Ctx Storage : Type.
Variable Umzug_up : UmzugConfig W Ctx Storage -> UpOptions -> Async W unit.
Variable Umzug_create : UmzugCreateConfig -> CreateOptions -> Async W unit.
Variable globAsync : string -> Async W (list string).
Variables path_resolve path_basename : string -> string.
Variable dbs : list (string * DatabaseConfig W Ctx Storage).

(** The options of each command: [add] declares choices for [db] and
    [--format], and does not demand [--env]; [apply-scripts] demands
    [--env] and declares choices for [--db] and the target; [clean], [drop]
    and [create] demand [--env] and declare choices for [--db]. *)
Definition validate (command : Command) : outcome unit :=
  match command with
  | Add opts =>
      among_choices
        (includes (dbOpt_choices dbs) (add_db opts) &&
         match add_format opts with
         | Some format => includes (formatOpt_choices dbs) format
         | None => true
         end)
  | Apply opts =>
      demanded_env (apply_env opts)
        (among_choices (includes (dbOpt_choices dbs) (apply_db opts) &&
                        includes targets (apply_target opts)))
  | Clean opts | Drop opts | Create opts =>
      demanded_env (arg_env opts)
        (among_choices (includes (dbOpt_choices dbs) (arg_db opts)))
  end.

(** A command as the command line runs it: validation of the options,
    then the command's check, then its handler. *)
Definition command_line (command : Command) : Async W unit :=
  match validate command with
  | Throw e => rejected e
  | Ok _ =>
      run_command Umzug_up Umzug_create globAsync path_resolve path_basename dbs
                  command
  end.

End CommandLine.

(** ** The multi-database revision: checks and the add handler *)

(** [envOpt.choices] of the multi-database revision. *)
Definition envOpt_choices : list string := ["staging"; "prod"; "demo"].

Section MultiChecks.

Variables W Ctx Storage : Type.
Variable Umzug_up : UmzugConfig W Ctx Storage -> UpOptions -> Async W unit.
Variable Umzug_create : UmzugCreateConfig -> CreateOptions -> Async W unit.
Variable globAsync : string -> Async W (list string).
Variables path_resolve path_basename : string -> string.
Variable dbs : list (string * DatabaseConfig W Ctx Storage).

Definition not_configured (db : string) : JsError :=
  Error ("Database " ++ dquote ++ db ++ dquote ++ " not configured").

Definition multi_add_check (opts : AddArgs) : outcome bool :=
  if is_seed (add_type opts) && negb (truthy (add_env opts)) then
    Throw seed_needs_environment
  else if is_migration (add_type opts) && truthy (add_env opts) then
    Throw migration_forbids_environment
  else
    match lookup dbs (add_db opts) with
    | None => Throw (not_configured (add_db opts))
    | Some db =>
        match add_format opts with
        | Some format =>
            if negb (includes (supportedScriptFormats db) format)
            then Throw (unsupported_format (add_db opts) format)
            else Ok true
        | None => Ok true
        end
    end.

Definition multi_add_handler (opts : AddArgs) : Async W unit :=
  match lookup dbs (add_db opts) with
  | None => rejected (not_configured (add_db opts))
  | Some dbConfig =>
      let migrator :=
        {| create_template := fun filePath =>
             [(filePath, match getTemplate dbConfig with
                         | Some template => template filePath
                         | None => EmptyString
                         end)];
           create_folder := scriptsDirectory dbConfig |} in
      let format :=
        match add_format opts with
        | Some format => format
        | None => defaultScriptFormat dbConfig
        end in
      bind (Umzug_create migrator
              {| co_name := nameScript (add_type opts) (add_env opts) (add_name opts)
                            ++ "." ++ format;
                 co_allowExtension := "." ++ format;
                 co_prefix := "TIMESTAMP";
                 co_skipVerify := true |})
           (fun _ => resolved tt)
  end.

(** The check of [apply-scripts]: the name against the target only. *)
Definition multi_apply_check (target : string) (name : option string) : outcome bool :=
  if negb (needsSpecificScript target) && truthy name then
    Throw name_without_specific_target
  else if needsSpecificScript target && negb (truthy name) then
    Throw specific_target_without_name
  else Ok true.




(** What yargs validates for the commands of this revision that take
    [--env]: the flag is demanded and is one of [envOpt]'s choices, and
    each [--db] is a configured name. *)
Definition multi_validate (missing : JsError) (env : option string)
    (optDbs : list string) (others : bool) : outcome unit :=
  match env with
  | None => Throw missing
  | Some given =>
      among_choices (includes envOpt_choices given &&
                     forallb (includes (dbOpt_choices dbs)) optDbs &&
                     others)
  end.

Definition validated (validation : outcome unit) (command : Async W unit)
    : Async W unit :=
  match validation with
  | Throw e => rejected e
  | Ok _ => command
  end.



(** [apply-scripts] behind the validation and its check: nothing compares
    the environment with what a database supports. *)
Definition multi_apply_command (target : string) (name env : option string)
    (optDbs : list string) : Async W unit :=
  validated (multi_validate (missing_required_argument "env") env optDbs
                            (includes targets target))
            (checked (fun _ : unit => multi_apply_check target name)
                     (fun _ => multi_apply_handler Umzug_up globAsync path_resolve
                                                   path_basename dbs target name env
                                                   (Some optDbs))
                     tt).

End MultiChecks.

(** ** Observing a run

    To state what a handler calls, and in which order, the callbacks are
    replaced by probes that write to a log: the world is the log.  A probe
    records the call when it is made and its completion when the result is
    known (at once for a plain return or throw, one turn later for a
    promise).  What a probe does is fixed by a behaviour; the theorems hold
    for every choice of behaviours and every schedule. *)

Inductive Op : Type :=
| createContextOp | createStorageOp | destroyContextOp | destroyStorageOp
| prepareOp | dropOp | engineUpOp | engineCreateOp | globOp
| runBeforeOp | runAfterOp | upOp | downOp.

Inductive Event : Type :=
| Invoked (who : string) (op : Op)
| Completed (who : string) (op : Op) (ok : bool).

Definition Log : Type := list Event.

Definition who_of (ev : Event) : string :=
  match ev with
  | Invoked who _ => who
  | Completed who _ _ => who
  end.

Definition op_of (ev : Event) : Op :=
  match ev with
  | Invoked _ op => op
  | Completed _ op _ => op
  end.

Definition Op_eqb (a b : Op) : bool :=
  match a, b with
  | createContextOp, createContextOp | createStorageOp, createStorageOp
  | destroyContextOp, destroyContextOp | destroyStorageOp, destroyStorageOp
  | prepareOp, prepareOp | dropOp, dropOp | engineUpOp, engineUpOp
  | engineCreateOp, engineCreateOp | globOp, globOp
  | runBeforeOp, runBeforeOp | runAfterOp, runAfterOp
  | upOp, upOp | downOp, downOp => true
  | _, _ => false
  end.

(** Is the event a call of [op]? *)
Definition is_call (op : Op) (ev : Event) : bool :=
  match ev with
  | Invoked _ o => Op_eqb o op
  | Completed _ _ _ => false
  end.

(** The number of calls of [op] in a log, and the callers in order. *)
Definition calls (op : Op) (log : Log) : nat :=
  List.length (filter (is_call op) log).

Definition callers (op : Op) (log : Log) : list string :=
  map who_of (filter (is_call op) log).

(** What a plain call does: throw, return a value, or return a promise that
    is fulfilled or rejected later. *)
Inductive Behaviour : Type :=
| Throws (e : JsError)
| Returns
| Fulfils
| Rejects (e : JsError).

Definition succeeds (b : Behaviour) : bool :=
  match b with
  | Returns | Fulfils => true
  | Throws _ | Rejects _ => false
  end.

Definition is_ok {A : Type} (r : outcome A) : bool :=
  match r with
  | Ok _ => true
  | Throw _ => false
  end.

(** The error of a behaviour that fails. *)
Definition failure (b : Behaviour) : option JsError :=
  match b with
  | Throws e | Rejects e => Some e
  | Returns | Fulfils => None
  end.

(** A probe for a function that returns a promise settling as [r]. *)
Definition probe {A : Type} (who : string) (op : Op) (r : outcome A) : Async Log A :=
  fun log =>
    (log ++ [Invoked who op],
     Pending (fun _ log' => (log' ++ [Completed who op (is_ok r)], Settled r))).

(** A probe for a plain function that yields [a] when it succeeds. *)
Definition probe_call {A : Type} (who : string) (op : Op) (b : Behaviour) (a : A)
    : Sync Log (Promise Log A) :=
  fun log =>
    match b with
    | Throws e => (log ++ [Invoked who op; Completed who op false], Throw e)
    | Returns => (log ++ [Invoked who op; Completed who op true], Ok (Settled (Ok a)))
    | Fulfils =>
        (log ++ [Invoked who op],
         Ok (Pending (fun _ log' =>
                        (log' ++ [Completed who op true], Settled (Ok a)))))
    | Rejects e =>
        (log ++ [Invoked who op],
         Ok (Pending (fun _ log' =>
                        (log' ++ [Completed who op false], Settled (Throw e)))))
    end.

(** The behaviours of one database's callbacks and of the engine when it is
    run for that database. *)
Record DbBehaviour : Type := {
  on_createContext : Behaviour;
  on_createStorage : Behaviour;
  on_destroyContext : outcome unit;
  on_destroyStorage : option (outcome unit);
  on_prepare : outcome unit;
  on_drop : outcome unit;
  on_engine_up : outcome unit;
  environments : list string;
  default_environment : option string;
  formats : list string
}.

(** A runnable whose [up] and [down] are probes. *)
Definition probe_migration (who : string) (on_up : outcome unit)
    (on_down : option (outcome unit)) : RunnableMigration Log string :=
  {| name := who;
     path := Absent;
     up := fun _ => probe who upOp on_up;
     down := match on_down with
             | Some r => Some (fun _ => probe who downOp r)
             | None => None
             end |}.

(** The configuration of a database whose callbacks are probes.  Contexts
    and storages are handles that carry the name of their database. *)
Definition probe_db (who : string) (b : DbBehaviour)
    : DatabaseConfig Log string string :=
  {| defaultScriptFormat := hd "sql" (formats b);
     supportedScriptFormats := formats b;
     supportedEnvironments := environments b;
     defaultEnvironment := default_environment b;
     scriptsDirectory := who;
     resolveScript := fun params log =>
       (log, Ok (probe_migration (mp_name params) (Ok tt) None));
     getTemplate := None;
     prepareDbAndDisconnect := fun _ => returning (probe who prepareOp (on_prepare b));
     dropDbAndDisconnect := fun _ => returning (probe who dropOp (on_drop b));
     createContext := fun _ => probe_call who createContextOp (on_createContext b) who;
     createStorage := fun _ => probe_call who createStorageOp (on_createStorage b) who;
     destroyContext := fun context => probe context destroyContextOp (on_destroyContext b);
     destroyStorage := match on_destroyStorage b with
                       | Some r => Some (fun storage => probe storage destroyStorageOp r)
                       | None => None
                       end |}.

(** A configuration made of probes. *)
Definition probe_dbs (config : list (string * DbBehaviour))
    : list (string * DatabaseConfig Log string string) :=
  map (fun entry => (fst entry, probe_db (fst entry) (snd entry))) config.

Fixpoint behaviour_of (config : list (string * DbBehaviour)) (who : string)
    : option DbBehaviour :=
  match config with
  | [] => None
  | (k, b) :: rest => if k =? who then Some b else behaviour_of rest who
  end.

(** The engine as a probe: run for a context, it settles as the behaviour
    of that context's database says (fulfilled for an unknown handle). *)
Definition probe_up (config : list (string * DbBehaviour))
    (migrator : UmzugConfig Log string string) (_ : UpOptions) : Async Log unit :=
  probe (context migrator) engineUpOp
        (match behaviour_of config (context migrator) with
         | Some b => on_engine_up b
         | None => Ok tt
         end).

Definition probe_create (on_create : outcome unit)
    (_ : UmzugCreateConfig) (_ : CreateOptions) : Async Log unit :=
  probe "umzug" engineCreateOp on_create.

Definition probe_glob (found : list string) (_ : string) : Async Log (list string) :=
  fun log => (log, Settled (Ok found)).

(** The handlers run on probes. *)
Section Observed.

Variable config : list (string * DbBehaviour).
Variable on_create : outcome unit.

Definition observed_command (command : Command) : Async Log unit :=
  run_command (probe_up config) (probe_create on_create)
              (probe_glob []) (fun p => p) (fun p => p)
              (probe_dbs config) command.

Definition observed_command_line (command : Command) : Async Log unit :=
  command_line (probe_up config) (probe_create on_create)
               (probe_glob []) (fun p => p) (fun p => p)
               (probe_dbs config) command.

Definition observed_apply (opts : ApplyArgs) : Async Log unit :=
  apply_handler (probe_up config) (probe_glob []) (fun p => p) (fun p => p)
                (probe_dbs config) opts.


Definition observed_multi_apply (target : string) (name env : option string)
    (optDbs : option (list string)) : Async Log unit :=
  multi_apply_handler (probe_up config) (probe_glob []) (fun p => p) (fun p => p)
                      (probe_dbs config) target name env optDbs.

Definition observed_multi_apply_command (target : string) (name env : option string)
    (optDbs : list string) : Async Log unit :=
  multi_apply_command (probe_up config) (probe_glob []) (fun p => p) (fun p => p)
                      (probe_dbs config) target name env optDbs.

End Observed.

(** *** Reading a log *)

(** The log and the settlement of a handler run from an empty log. *)
Definition observe {A : Type} (m : Async Log A) (sch : list nat) : Log * outcome A :=
  fst (exec m sch []).

(** The calls made, and their callers, when a handler is invoked: the log
    at the point where it hands back its promise, before any turn of the
    event loop. *)
Definition started_by (op : Op) (handler : Async Log unit) : list string :=
  callers op (fst (handler [])).

(** The events of the two factories of a database. *)
Definition acquisition_event (who : string) (ev : Event) : Prop :=
  who_of ev = who /\ (op_of ev = createContextOp \/ op_of ev = createStorageOp).

(** The events of a block all belong to one database. *)
Definition owned_by (who : string) (block : Log) : Prop :=
  Forall (fun ev => who_of ev = who) block.

(** The index of the first occurrence of [who] in [names] (their length
    when there is none). *)
Fixpoint position (who : string) (names : list string) : nat :=
  match names with
  | [] => 0
  | n :: rest => if n =? who then 0 else S (position who rest)
  end.

(** The flags of the multi-database [apply-scripts], [undefined] read as
    no flag. *)
Definition flags_of (optDbs : option (list string)) : list string :=
  match optDbs with
  | Some l => l
  | None => []
  end.

(** Does the call return a promise that is still pending? *)
Definition returns_pending (b : Behaviour) : bool :=
  match b with
  | Fulfils | Rejects _ => true
  | Throws _ | Returns => false
  end.

(** Does the call throw before returning anything? *)
Definition throws_at_once (b : Behaviour) : bool :=
  match b with
  | Throws _ => true
  | _ => false
  end.

(** How awaiting a plain call settles. *)
Definition awaited (b : Behaviour) : outcome unit :=
  match failure b with
  | Some e => Throw e
  | None => Ok tt
  end.

(** What the [finally] block of a database logs on probes. *)
Definition teardown_log (who : string) (b : DbBehaviour) : Log :=
  Invoked who destroyContextOp ::
  Completed who destroyContextOp (is_ok (on_destroyContext b)) ::
  match on_destroyContext b, on_destroyStorage b with
  | Ok _, Some r => [Invoked who destroyStorageOp;
                     Completed who destroyStorageOp (is_ok r)]
  | _, _ => []
  end.

(** How the [finally] block of a database completes on probes. *)
Definition teardown_result (b : DbBehaviour) : outcome unit :=
  match on_destroyContext b with
  | Throw e => Throw e
  | Ok _ =>
      match on_destroyStorage b with
      | Some (Throw e) => Throw e
      | _ => Ok tt
      end
  end.

(** *** Probes for hooks *)

(** Hooks that are probes. *)
Definition probe_hooks (before after : Behaviour) : Hooks Log :=
  {| runBefore := Some (probe_call "hooks" runBeforeOp before tt);
     runAfter := Some (probe_call "hooks" runAfterOp after tt) |}.

(** The contract of a wrapped step ([op] is [upOp] or [downOp], [r] how the
    step of the migration settles), on the log and settlement [ran] of one
    call: [runBefore] is called first; the step is not attempted unless
    [runBefore] completed; when the step rejects, the call rejects with the
    same error and [runAfter] is not called; when the step is fulfilled,
    [runBefore], the step and [runAfter] are each called once, in that
    order, each completed before the next is called. *)
Definition sandwiched (op : Op) (before after : Behaviour) (r : outcome unit)
    (ran : Log * outcome unit) : Prop :=
  hd_error (fst ran) = Some (Invoked "hooks" runBeforeOp) /\
  calls runBeforeOp (fst ran) = 1 /\
  (succeeds before = false ->
   calls op (fst ran) = 0 /\ calls runAfterOp (fst ran) = 0 /\
   snd ran = awaited before) /\
  (succeeds before = true ->
   forall e, r = Throw e ->
     fst ran = [Invoked "hooks" runBeforeOp; Completed "hooks" runBeforeOp true;
                Invoked "m" op; Completed "m" op false] /\
     snd ran = Throw e) /\
  (succeeds before = true ->
   r = Ok tt ->
     fst ran = [Invoked "hooks" runBeforeOp; Completed "hooks" runBeforeOp true;
                Invoked "m" op; Completed "m" op true;
                Invoked "hooks" runAfterOp;
                Completed "hooks" runAfterOp (succeeds after)] /\
     snd ran = awaited after).

(** *** Argument checks *)

(** Is the command [add]? *)
Definition is_add (command : Command) : bool :=
  match command with
  | Add _ => true
  | _ => false
  end.

(** Do the arguments pass the checks a command makes before it looks at
    the environment?  [add]: an environment for a seed and none for a
    migration; [apply-scripts]: a name exactly with [only] and [until]. *)
Definition consistent_arguments (command : Command) : bool :=
  match command with
  | Add opts =>
      if is_seed (add_type opts) then truthy (add_env opts)
      else negb (truthy (add_env opts))
  | Apply opts =>
      Bool.eqb (needsSpecificScript (apply_target opts)) (truthy (apply_name opts))
  | Clean _ | Drop _ | Create _ => true
  end.

(** *** Names the Namer is given

    Section 4.1 leaves the validity of its inputs to the callers.  The
    timestamp is umzug's [TIMESTAMP] prefix: digits, [T] and dots.  The
    environment and the free-form name are any strings. *)





(** *** Statements as the specification words them *)

(** Teardown after an engine failure: when the engine was invoked for the
    database and threw [e], [destroyContext] was called, [destroyStorage]
    too when the database defines it, and the command fails with [e]. *)
Definition teardown_keeps_engine_error (config : list (string * DbBehaviour))
    (opts : ApplyArgs) (sch : list nat) : Prop :=
  forall b e,
    behaviour_of config (apply_db opts) = Some b ->
    on_engine_up b = Throw e ->
    calls engineUpOp (fst (observe (observed_apply config opts) sch)) = 1 ->
    1 <= calls destroyContextOp (fst (observe (observed_apply config opts) sch)) /\
    (on_destroyStorage b <> None ->
     1 <= calls destroyStorageOp (fst (observe (observed_apply config opts) sch))) /\
    snd (observe (observed_apply config opts) sch) = Throw e.

(** Environment validation as the specification words it: when the
    resolved environment is not one the database supports, the command
    fails before anything is called, with a message that names the
    environment and lists the supported ones. *)
Definition names_invalid_environment (config : list (string * DbBehaviour))
    (command : Command) : Prop :=
  forall b sch,
    behaviour_of config (command_db command) = Some b ->
    includes_opt (environments b)
                 (nullish (command_env command) (default_environment b)) = false ->
    exists msg,
      observe (observed_command_line config (Ok tt) command) sch =
      ([], Throw (Error msg)) /\
      contains (render (nullish (command_env command) (default_environment b))) msg = true /\
      contains (join ", " (environments b)) msg = true.

(** *** Sample configurations and arguments *)

(** A database on which everything succeeds, except that dropping it
    fails: it does not exist yet. *)
Definition sample_behaviour : DbBehaviour :=
  {| on_createContext := Fulfils;
     on_createStorage := Returns;
     on_destroyContext := Ok tt;
     on_destroyStorage := Some (Ok tt);
     on_prepare := Ok tt;
     on_drop := Throw (Error "database does not exist");
     on_engine_up := Ok tt;
     environments := ["staging"; "prod"];
     default_environment := None;
     formats := ["sql"; "js"] |}.

(** A database whose engine run fails and whose context cannot be
    destroyed. *)
Definition failing_cleanup : DbBehaviour :=
  {| on_createContext := Fulfils;
     on_createStorage := Returns;
     on_destroyContext := Throw (Error "cleanup");
     on_destroyStorage := Some (Ok tt);
     on_prepare := Ok tt;
     on_drop := Ok tt;
     on_engine_up := Throw (Error "engine");
     environments := ["staging"; "prod"];
     default_environment := None;
     formats := ["sql"; "js"] |}.

(** A database whose engine run fails and whose teardown succeeds. *)
Definition failing_engine : DbBehaviour :=
  {| on_createContext := Fulfils;
     on_createStorage := Fulfils;
     on_destroyContext := Ok tt;
     on_destroyStorage := Some (Ok tt);
     on_prepare := Ok tt;
     on_drop := Ok tt;
     on_engine_up := Throw (Error "engine");
     environments := ["staging"; "prod"];
     default_environment := None;
     formats := ["sql"; "js"] |}.

(** A database whose context is created and whose storage is not. *)
Definition failing_storage : DbBehaviour :=
  {| on_createContext := Fulfils;
     on_createStorage := Rejects (Error "no storage");
     on_destroyContext := Ok tt;
     on_destroyStorage := Some (Ok tt);
     on_prepare := Ok tt;
     on_drop := Ok tt;
     on_engine_up := Ok tt;
     environments := ["staging"; "prod"];
     default_environment := None;
     formats := ["sql"; "js"] |}.

(** A configuration of two databases, A before B. *)
Definition two_databases : list (string * DbBehaviour) :=
  [("A", sample_behaviour); ("B", failing_engine)].

(** [apply-scripts --db db --env env] *)
Definition apply_remaining (db env : string) : ApplyArgs :=
  {| apply_target := "remaining";
     apply_name := None;
     apply_db := db;
     apply_env := Some env |}.

(** [apply-scripts only --db db --env env], the name missing. *)
Definition apply_only_without_name (db env : string) : ApplyArgs :=
  {| apply_target := "only";
     apply_name := None;
     apply_db := db;
     apply_env := Some env |}.

(** [add db1 migration myseed --env demo] *)
Definition add_migration_with_environment : AddArgs :=
  {| add_db := "db1";
     add_type := migration;
     add_name := "myseed";
     add_env := Some "demo";
     add_format := None |}.

(** [clean --db A --env bogus] *)
Definition clean_bogus : DbEnvArgs :=
  {| arg_db := "A"; arg_env := Some "bogus" |}.

(** [clean --db A], the environment left out. *)
Definition clean_without_environment : DbEnvArgs :=
  {| arg_db := "A"; arg_env := None |}.

(** The parameters umzug gives a migration named [m]. *)
Definition sample_params : MigrationParams string :=
  {| mp_name := "m"; mp_path := None; mp_context := "A" |}.


(** *** Observing the loader *)

(** An importer that answers from a table of files and records the paths
    it was asked for. *)
Definition importing {M : Type} (files : string -> M + Thrown)
    : Import (list string) M :=
  fun path imported => (imported ++ [path], files path).

(** A module that fails to load for a reason of its own. *)
Definition syntax_error : Thrown :=
  {| thrown_code := None; thrown_error := Error "SyntaxError: Unexpected token" |}.

Definition not_found : Thrown :=
  {| thrown_code := Some ERR_MODULE_NOT_FOUND;
     thrown_error := Error "Cannot find module" |}.

(** A directory whose [.mjs] configuration is broken and whose [.js]
    configuration holds [d]. *)
Definition broken_mjs_beside_js {M : Type} (d : M) (path : string) : M + Thrown :=
  if path =? "./.migrator.config.mjs" then inr syntax_error
  else if path =? ".migrator.config.mjs" then inr syntax_error
  else inl d.

(** [clean --db A --env staging] *)
Definition clean_staging : DbEnvArgs :=
  {| arg_db := "A"; arg_env := Some "staging" |}.

(** [drop] and [create] run on probes. *)
Definition observed_drop (config : list (string * DbBehaviour)) (opts : DbEnvArgs)
    : Async Log unit :=
  drop_handler (probe_dbs config) opts.

Definition observed_create (config : list (string * DbBehaviour)) (opts : DbEnvArgs)
    : Async Log unit :=
  create_handler (probe_dbs config) opts.

(** An engine whose [create] records what it is given and succeeds. *)
Definition recording_create (migrator : UmzugCreateConfig) (options : CreateOptions)
    : Async (list (UmzugCreateConfig * CreateOptions)) unit :=
  fun made => (made ++ [(migrator, options)], Settled (Ok tt)).

(** A database whose engine run succeeds and whose storage cannot be
    destroyed. *)
Definition failing_storage_cleanup : DbBehaviour :=
  {| on_createContext := Fulfils;
     on_createStorage := Fulfils;
     on_destroyContext := Ok tt;
     on_destroyStorage := Some (Throw (Error "storage cleanup"));
     on_prepare := Ok tt;
     on_drop := Ok tt;
     on_engine_up := Ok tt;
     environments := ["staging"; "prod"];
     default_environment := None;
     formats := ["sql"; "js"] |}.

(** [apply-scripts] with a target outside the four choices. *)
Definition apply_sideways (db env : string) : ApplyArgs :=
  {| apply_target := "sideways";
     apply_name := None;
     apply_db := db;
     apply_env := Some env |}.

(** [add db1 seed myseed --env staging --format js] *)
Definition add_seed_for_staging : AddArgs :=
  {| add_db := "db1";
     add_type := seed;
     add_name := "myseed";
     add_env := Some "staging";
     add_format := Some "js" |}.

(** A database that only describes its scripts: its callbacks succeed
    without touching the world. *)
Definition described_db (W : Type) (directory format : string)
    (template : option (string -> string)) : DatabaseConfig W unit unit :=
  {| defaultScriptFormat := format;
     supportedScriptFormats := [format];
     supportedEnvironments := ["staging"; "prod"];
     defaultEnvironment := Some "staging";
     scriptsDirectory := directory;
     resolveScript := fun params w =>
       (w, Ok {| name := mp_name params;
                 path := Absent;
                 up := fun _ => resolved tt;
                 down := None |});
     getTemplate := template;
     prepareDbAndDisconnect := fun _ => returning (resolved tt);
     dropDbAndDisconnect := fun _ => returning (resolved tt);
     createContext := fun _ w => (w, Ok (Settled (Ok tt)));
     createStorage := fun _ w => (w, Ok (Settled (Ok tt)));
     destroyContext := fun _ => resolved tt;
     destroyStorage := None |}.

(** [add db1 migration add-users] *)
Definition add_plain_migration : AddArgs :=
  {| add_db := "db1";
     add_type := migration;
     add_name := "add-users";
     add_env := None;
     add_format := None |}.

(** *** Outcomes on probes *)

(** Nothing fails in a database's run of [apply-scripts]: acquisition,
    engine and teardown. *)
Definition applies_cleanly (b : DbBehaviour) : bool :=
  succeeds (on_createContext b) && succeeds (on_createStorage b) &&
  is_ok (on_engine_up b) && is_ok (teardown_result b).

(** The entries up to the first whose run fails, that one included. *)
Fixpoint through_first_failure (entries : list (string * DbBehaviour))
    : list (string * DbBehaviour) :=
  match entries with
  | [] => []
  | entry :: rest =>
      entry :: (if applies_cleanly (snd entry) then through_first_failure rest else [])
  end.

(** A promise whose settlement satisfies [Q] whatever the scheduler
    chooses and whatever the other computations do to the world. *)
Inductive settles_with {W A : Type} (Q : outcome A -> Prop) : Promise W A -> Prop :=
| settles_now (r : outcome A) : Q r -> settles_with Q (Settled r)
| settles_later (k : nat -> W -> W * Promise W A) :
    (forall c w, settles_with Q (snd (k c w))) -> settles_with Q (Pending k).

(** *** Databases whose drop may throw *)

(** What [dropDbAndDisconnect] does when its failure is [thrown] before a
    promise is returned, as a callback that is not an [async] function may
    do, rather than delivered by rejecting the promise. *)
Definition drop_behaviour (thrown : bool) (b : DbBehaviour) : Behaviour :=
  match on_drop b with
  | Ok _ => Fulfils
  | Throw e => if thrown then Throws e else Rejects e
  end.

(** The probes of [probe_db], with [dropDbAndDisconnect] behaving as
    [drop_behaviour] says. *)
Definition probe_db_dropping (thrown : bool) (who : string) (b : DbBehaviour)
    : DatabaseConfig Log string string :=
  {| defaultScriptFormat := defaultScriptFormat (probe_db who b);
     supportedScriptFormats := supportedScriptFormats (probe_db who b);
     supportedEnvironments := supportedEnvironments (probe_db who b);
     defaultEnvironment := defaultEnvironment (probe_db who b);
     scriptsDirectory := scriptsDirectory (probe_db who b);
     resolveScript := resolveScript (probe_db who b);
     getTemplate := getTemplate (probe_db who b);
     prepareDbAndDisconnect := prepareDbAndDisconnect (probe_db who b);
     dropDbAndDisconnect := fun _ => probe_call who dropOp (drop_behaviour thrown b) tt;
     createContext := createContext (probe_db who b);
     createStorage := createStorage (probe_db who b);
     destroyContext := destroyContext (probe_db who b);
     destroyStorage := destroyStorage (probe_db who b) |}.

(** A configuration of such probes; [thrown] tells, by name, the databases
    whose failing drop is thrown. *)
Definition probe_dbs_dropping (thrown : string -> bool)
    (config : list (string * DbBehaviour))
    : list (string * DatabaseConfig Log string string) :=
  map (fun entry =>
         (fst entry, probe_db_dropping (thrown (fst entry)) (fst entry) (snd entry)))
      config.


(** What [clean] logs for one database when nothing cuts it short, and how
    it settles for that database: a thrown drop ends it; otherwise the
    drop completes, whatever its result, the database is prepared and the
    result is that of the preparation. *)
Definition clean_script (thrown : bool) (who : string) (b : DbBehaviour) : Log :=
  match drop_behaviour thrown b with
  | Throws _ => [Invoked who dropOp; Completed who dropOp false]
  | _ => [Invoked who dropOp; Completed who dropOp (is_ok (on_drop b));
          Invoked who prepareOp; Completed who prepareOp (is_ok (on_prepare b))]
  end.

Definition clean_result (thrown : bool) (b : DbBehaviour) : outcome unit :=
  match drop_behaviour thrown b with
  | Throws e => Throw e
  | _ => on_prepare b
  end.

(** A promise that only appends to the log and, whatever the scheduler
    chooses and whatever else is appended in between, adds in all the
    events of [script], as far as [keep] sees them, and then settles with
    [r]. *)
Fixpoint follows {A : Type} (keep : Event -> bool) (p : Promise Log A)
    (script : Log) (r : outcome A) {struct p} : Prop :=
  match p with
  | Settled r' => script = [] /\ r' = r
  | Pending k =>
      forall c log,
      exists chunk rest,
        fst (k c log) = log ++ chunk /\
        script = filter keep chunk ++ rest /\
        follows keep (snd (k c log)) rest r
  end.


(** A call that appends to the log, at once and through the promise it
    hands back, the events of [script] in all, as far as [keep] sees them,
    and whose promise settles with [r]. *)
Definition emits {A : Type} (keep : Event -> bool) (m : Async Log A)
    (script : Log) (r : outcome A) : Prop :=
  forall log,
  exists chunk rest,
    fst (m log) = log ++ chunk /\
    script = filter keep chunk ++ rest /\
    follows keep (snd (m log)) rest r.

(** Three databases, the second with a failing engine. *)
Definition three_databases : list (string * DbBehaviour) :=
  [("A", sample_behaviour); ("B", failing_engine); ("C", sample_behaviour)].

(** * Properties *)

(** ** Running composed promises *)
Section JsFacts.

Variable W : Type.

Lemma run_on_settle (A B : Type) (p : Promise W A) (f : outcome A -> Async W B) :
  forall sch w,
    run (on_settle p f) sch w =
    match run p sch w with
    | (w1, r, sch1) => exec (f r) (tl sch1) w1
    end.
Proof.
  induction p as [r | k IH] using Promise_induction; intros sch w.
  - reflexivity.
  - cbn [on_settle run]. specialize (IH (hd 0 sch) w).
    destruct (k (hd 0 sch) w) as [w' p']. exact (IH (tl sch) w').
Qed.

Lemma exec_resolved (A : Type) (a : A) sch (w : W) :
  exec (resolved a) sch w = (w, Ok a, sch).
Proof. reflexivity. Qed.

Lemma exec_call_returning (A : Type) (m : Async W A) sch w :
  exec (call (returning m)) sch w = exec m sch w.
Proof. unfold exec, call, returning. destruct (m w); reflexivity. Qed.

Lemma exec_rejected (A : Type) (e : JsError) sch (w : W) :
  exec (@rejected W A e) sch w = (w, Throw e, sch).
Proof. reflexivity. Qed.

Lemma exec_bind (A B : Type) (m : Async W A) (f : A -> Async W B) sch w :
  exec (bind m f) sch w =
  match exec m sch w with
  | (w1, Ok a, sch1) => exec (f a) (tl sch1) w1
  | (w1, Throw e, sch1) => (w1, Throw e, tl sch1)
  end.
Proof.
  unfold exec at 1, bind. unfold exec at 1.
  destruct (m w) as [w' p]. unfold then_. rewrite run_on_settle.
  destruct (run p sch w') as [[w1 r] sch1]. destruct r; reflexivity.
Qed.

Lemma exec_try_finally (A : Type) (body : Async W A) (fin : Async W unit) sch w :
  exec (try_finally body fin) sch w =
  match exec body sch w with
  | (w1, r, sch1) =>
      match exec fin (tl sch1) w1 with
      | (w2, Ok _, sch2) => (w2, r, tl sch2)
      | (w2, Throw e, sch2) => (w2, Throw e, tl sch2)
      end
  end.
Proof.
  unfold exec at 1, try_finally. unfold exec at 1.
  destruct (body w) as [w' p]. rewrite run_on_settle.
  destruct (run p sch w') as [[w1 r] sch1]. rewrite exec_bind.
  destruct (exec fin (tl sch1) w1) as [[w2 rf] sch2]. destruct rf; reflexivity.
Qed.

Lemma run_chain (tasks : list (unit -> Async W unit)) :
  forall (p : Promise W unit) sch w,
    run (fold_left (fun res task => then_ res task) tasks p) sch w =
    match run p sch w with
    | (w1, r, sch1) => continue tasks r w1 sch1
    end.
Proof.
  induction tasks as [| task rest IH]; intros p sch w; cbn [fold_left continue].
  - destruct (run p sch w) as [[w1 r] sch1]. reflexivity.
  - rewrite IH. unfold then_. rewrite run_on_settle.
    destruct (run p sch w) as [[w1 r] sch1]. destruct r as [[] | e].
    + destruct (exec (task tt) (tl sch1) w1) as [[w2 r2] sch2]. reflexivity.
    + rewrite exec_rejected. reflexivity.
Qed.

End JsFacts.

(** ** The environment of a configured database *)

Lemma getEnv_found (W Ctx Storage : Type)
    (dbs : list (string * DatabaseConfig W Ctx Storage)) key db env :
  lookup dbs key = Some db ->
  getEnv dbs key env = Ok (nullish env (defaultEnvironment db)).
Proof.
  intros Hdb. unfold getEnv. rewrite Hdb. destruct env; reflexivity.
Qed.

(** ** Probes *)

Lemma exec_probe (A : Type) who op (r : outcome A) sch log :
  exec (probe who op r) sch log =
  (log ++ [Invoked who op; Completed who op (is_ok r)], r, tl sch).
Proof.
  unfold exec, probe. cbn [run]. rewrite <- app_assoc. reflexivity.
Qed.

Lemma lookup_probe_dbs config who :
  lookup (probe_dbs config) who = option_map (probe_db who) (behaviour_of config who).
Proof.
  induction config as [| [k b] rest IH]; cbn; [reflexivity |].
  destruct (String.eqb_spec k who) as [-> | _]; [reflexivity | exact IH].
Qed.

(** Acquisition: whatever the schedule, only the factories' events are
    logged; the result is the pair of handles when both factories succeed
    and an error of one of them otherwise. *)
Lemma exec_acquire who bC bS sch log :
  exists l sch' r,
    exec (all2 (probe_call who createContextOp bC who)
               (probe_call who createStorageOp bS who)) sch log = (log ++ l, r, sch') /\
    Forall (acquisition_event who) l /\
    calls createContextOp l = 1 /\
    (succeeds bC && succeeds bS = true -> r = Ok (who, who)) /\
    (succeeds bC && succeeds bS = false ->
     exists e, r = Throw e /\ (failure bC = Some e \/ failure bS = Some e)).
Proof.
  destruct bC as [eC | | | eC], bS as [eS | | | eS];
    unfold exec, all2, probe_call; cbn [run join2 hd tl];
    try match goal with |- context [Nat.even ?c] => destruct (Nat.even c) end;
    cbn [run join2 hd tl];
    repeat rewrite <- app_assoc; cbn [app].
  all: do 3 eexists.
  all: split; [reflexivity |].
  all: split; [repeat (apply Forall_cons; [split; [reflexivity | cbn; auto] |]);
               apply Forall_nil |].
  all: split; [reflexivity |].
  all: cbn [succeeds andb failure].
  all: split; intros H; try discriminate H; try reflexivity.
  all: eexists; split; [reflexivity | auto].
Qed.

(** Evaluates the comparisons of literal strings in the goal. *)
Ltac decide_string_tests :=
  repeat match goal with
         | |- context [String.eqb ?a ?b] =>
             let v := eval vm_compute in (String.eqb a b) in
             change (String.eqb a b) with v
         end;
  cbv iota.

Lemma exec_engine_call config who b target name migrator sch log :
  context migrator = who ->
  behaviour_of config who = Some b ->
  In target targets ->
  exec (engine_call (probe_up config) migrator target name) sch log =
  (log ++ [Invoked who engineUpOp; Completed who engineUpOp (is_ok (on_engine_up b))],
   on_engine_up b, tl (tl sch)).
Proof.
  intros Hctx Hb Hin.
  assert (Hup : forall o,
             exec (bind (probe_up config migrator o) (fun _ => resolved tt)) sch log =
             (log ++ [Invoked who engineUpOp;
                      Completed who engineUpOp (is_ok (on_engine_up b))],
              on_engine_up b, tl (tl sch))).
  { intros o. rewrite exec_bind. unfold probe_up. rewrite Hctx, Hb, exec_probe.
    destruct (on_engine_up b) as [[] | e]; reflexivity. }
  unfold targets in Hin. cbn [In] in Hin.
  destruct Hin as [<- | [<- | [<- | [<- | []]]]]; unfold engine_call;
    decide_string_tests; apply Hup.
Qed.

Lemma exec_teardown who b sch log :
  exists sch',
    exec (teardown (probe_db who b) who who) sch log =
    (log ++ teardown_log who b, teardown_result b, sch').
Proof.
  unfold teardown, teardown_log, teardown_result. rewrite exec_bind.
  cbn [destroyContext destroyStorage probe_db]. rewrite exec_probe.
  destruct (on_destroyContext b) as [[] | e]; cbn [is_ok].
  - destruct (on_destroyStorage b) as [r |].
    + rewrite exec_bind, exec_probe, <- app_assoc. cbn [app].
      destruct r as [[] | e]; eexists; reflexivity.
    + eexists; reflexivity.
  - eexists; reflexivity.
Qed.

(** One database's run on probes, once both factories succeeded. *)
Lemma exec_apply_to_acquired config who b created_for env target name sch log :
  behaviour_of config who = Some b ->
  In target targets ->
  succeeds (on_createContext b) && succeeds (on_createStorage b) = true ->
  exists l sch',
    exec (apply_to (probe_up config) (probe_glob []) (fun p => p) (fun p => p)
                   (probe_db who b) created_for env target name) sch log =
    (log ++ l ++
       [Invoked who engineUpOp; Completed who engineUpOp (is_ok (on_engine_up b))] ++
       teardown_log who b,
     match teardown_result b with
     | Ok _ => on_engine_up b
     | Throw e => Throw e
     end, sch') /\
    Forall (acquisition_event who) l /\
    calls createContextOp l = 1.
Proof.
  intros Hb Htarget Hok. unfold apply_to. rewrite exec_bind.
  cbn [createContext createStorage probe_db].
  destruct (exec_acquire who (on_createContext b) (on_createStorage b) sch log)
    as (l & sch1 & r & -> & Hl & Hcalls & Hgood & _).
  rewrite (Hgood Hok). cbn [fst snd]. rewrite exec_try_finally.
  rewrite (@exec_engine_call config who b) by (auto; reflexivity).
  destruct (exec_teardown who b (tl (tl (tl (tl sch1))))
              ((log ++ l) ++ [Invoked who engineUpOp;
                              Completed who engineUpOp (is_ok (on_engine_up b))]))
    as [sch2 ->].
  exists l. eexists. repeat rewrite <- app_assoc.
  split; [| split; assumption].
  destruct (teardown_result b); reflexivity.
Qed.

Lemma calls_app op (l1 l2 : Log) :
  calls op (l1 ++ l2) = calls op l1 + calls op l2.
Proof. unfold calls. rewrite filter_app, length_app. reflexivity. Qed.

Lemma callers_app op (l1 l2 : Log) :
  callers op (l1 ++ l2) = callers op l1 ++ callers op l2.
Proof. unfold callers. rewrite filter_app, map_app. reflexivity. Qed.

Lemma Op_eqb_eq a b : Op_eqb a b = true -> a = b.
Proof. destruct a, b; cbn; congruence. Qed.

Lemma acquisition_calls who op l :
  Forall (acquisition_event who) l ->
  op <> createContextOp -> op <> createStorageOp ->
  calls op l = 0.
Proof.
  intros Hl H1 H2. unfold calls.
  induction Hl as [| ev l [_ Hop] _ IH]; [reflexivity |].
  cbn [filter]. destruct (is_call op ev) eqn:Hcall; [| exact IH].
  exfalso. destruct ev as [w o | w o ok]; [| discriminate Hcall].
  apply Op_eqb_eq in Hcall. cbn in Hop. subst o. destruct Hop; congruence.
Qed.

Section ApplyFacts.

Variables W Ctx Storage : Type.
Variable Umzug_up : UmzugConfig W Ctx Storage -> UpOptions -> Async W unit.
Variable globAsync : string -> Async W (list string).
Variables path_resolve path_basename : string -> string.

(** The [finally] block, whatever the callbacks: [destroyStorage] runs only
    after [destroyContext] succeeded, and the first failure is the block's. *)
Lemma exec_teardown_any (db : DatabaseConfig W Ctx Storage) context storage sch w :
  exec (teardown db context storage) sch w =
  match exec (destroyContext db context) sch w with
  | (w1, Throw e, sch1) => (w1, Throw e, tl sch1)
  | (w1, Ok _, sch1) =>
      match destroyStorage db with
      | None => (w1, Ok tt, tl sch1)
      | Some destroy =>
          match exec (destroy storage) (tl sch1) w1 with
          | (w2, Throw e, sch2) => (w2, Throw e, tl sch2)
          | (w2, Ok _, sch2) => (w2, Ok tt, tl sch2)
          end
      end
  end.
Proof.
  unfold teardown. rewrite exec_bind.
  destruct (exec (destroyContext db context) sch w) as [[w1 [[] | e1]] sch1];
    [| reflexivity].
  destruct (destroyStorage db) as [destroy |]; [| reflexivity].
  rewrite exec_bind.
  destruct (exec (destroy storage) (tl sch1) w1) as [[w2 [[] | e2]] sch2]; reflexivity.
Qed.

(** One database's run, whatever the callbacks and the engine: a failed
    acquisition ends the run there; otherwise the engine call runs to its
    settlement, the [finally] block runs next whatever that settlement, and
    the result is the engine's unless the block failed. *)
Lemma exec_apply_to (db : DatabaseConfig W Ctx Storage) created_for env target name sch w :
  exec (apply_to Umzug_up globAsync path_resolve path_basename
                 db created_for env target name) sch w =
  match exec (all2 (createContext db created_for) (createStorage db created_for)) sch w with
  | (w1, Throw e, sch1) => (w1, Throw e, tl sch1)
  | (w1, Ok acquired, sch1) =>
      match exec (engine_call Umzug_up
                    {| migrations := discover globAsync path_resolve path_basename db env;
                       context := fst acquired;
                       storage := snd acquired |} target name) (tl sch1) w1 with
      | (w2, r, sch2) =>
          match exec (teardown db (fst acquired) (snd acquired)) (tl sch2) w2 with
          | (w3, Ok _, sch3) => (w3, r, tl sch3)
          | (w3, Throw e, sch3) => (w3, Throw e, tl sch3)
          end
      end
  end.
Proof.
  unfold apply_to. rewrite exec_bind.
  destruct (exec (all2 (createContext db created_for) (createStorage db created_for)) sch w)
    as [[w1 [acquired | e]] sch1]; [| reflexivity].
  apply exec_try_finally.
Qed.

End ApplyFacts.

Lemma observed_apply_found config opts b :
  behaviour_of config (apply_db opts) = Some b ->
  observed_apply config opts =
  apply_to (probe_up config) (probe_glob []) (fun p => p) (fun p => p)
           (probe_db (apply_db opts) b)
           (nullish (apply_env opts) (default_environment b))
           (nullish (apply_env opts) (default_environment b))
           (apply_target opts) (apply_name opts).
Proof.
  intros Hb.
  assert (Hdb : lookup (probe_dbs config) (apply_db opts) =
                Some (probe_db (apply_db opts) b))
    by (rewrite lookup_probe_dbs, Hb; reflexivity).
  unfold observed_apply, apply_handler.
  rewrite (@getEnv_found _ _ _ _ _ _ _ Hdb), Hdb. reflexivity.
Qed.

(** C1, as the code has it: when the engine throws, [destroyContext] is
    called once, right after the engine's failure, and the command fails.
    [destroyStorage] is called when the database defines it and
    [destroyContext] succeeded.  The error that propagates is the engine's
    when every teardown call succeeds; an error thrown by a teardown call
    replaces it.  The first part is the run of one database's task for any
    callbacks and engine: the [finally] block runs after the engine call
    whatever its settlement, and a failure of the block is the result; the
    rest reads the log of the handler run on probes. *)
Theorem apply_tears_down_after_engine_failure config opts b e sch :
  behaviour_of config (apply_db opts) = Some b ->
  In (apply_target opts) targets ->
  succeeds (on_createContext b) && succeeds (on_createStorage b) = true ->
  on_engine_up b = Throw e ->
  let log := fst (observe (observed_apply config opts) sch) in
  let res := snd (observe (observed_apply config opts) sch) in
  (forall (W Ctx Storage : Type)
          (Umzug_up : UmzugConfig W Ctx Storage -> UpOptions -> Async W unit)
          (globAsync : string -> Async W (list string))
          (path_resolve path_basename : string -> string)
          (db : DatabaseConfig W Ctx Storage) created_for env (w : W),
      exec (apply_to Umzug_up globAsync path_resolve path_basename
                     db created_for env (apply_target opts) (apply_name opts)) sch w =
      match exec (all2 (createContext db created_for) (createStorage db created_for))
                 sch w with
      | (w1, Throw e', sch1) => (w1, Throw e', tl sch1)
      | (w1, Ok acquired, sch1) =>
          match exec (engine_call Umzug_up
                        {| migrations :=
                             discover globAsync path_resolve path_basename db env;
                           context := fst acquired;
                           storage := snd acquired |}
                        (apply_target opts) (apply_name opts)) (tl sch1) w1 with
          | (w2, r, sch2) =>
              match exec (teardown db (fst acquired) (snd acquired)) (tl sch2) w2 with
              | (w3, Ok _, sch3) => (w3, r, tl sch3)
              | (w3, Throw e', sch3) => (w3, Throw e', tl sch3)
              end
          end
      end) /\
  calls engineUpOp log = 1 /\
  calls destroyContextOp log = 1 /\
  (exists before after,
      log = before ++ [Completed (apply_db opts) engineUpOp false;
                       Invoked (apply_db opts) destroyContextOp] ++ after) /\
  is_ok res = false /\
  (forall e', on_destroyContext b = Throw e' ->
              calls destroyStorageOp log = 0 /\ res = Throw e') /\
  (on_destroyContext b = Ok tt ->
   calls destroyStorageOp log = match on_destroyStorage b with
                                | Some _ => 1
                                | None => 0
                                end /\
   res = match on_destroyStorage b with
         | Some (Throw e') => Throw e'
         | _ => Throw e
         end).
Proof.
  intros Hb Htarget Hok He log res. subst log res. unfold observe.
  rewrite (observed_apply_found _ _ Hb).
  destruct (@exec_apply_to_acquired config (apply_db opts) b
              (nullish (apply_env opts) (default_environment b))
              (nullish (apply_env opts) (default_environment b))
              (apply_target opts) (apply_name opts) sch [] Hb Htarget Hok)
    as (l & sch' & -> & Hl & _).
  cbn [fst snd app]. rewrite He. cbn [is_ok].
  assert (H0 : forall op, op <> createContextOp -> op <> createStorageOp ->
                          calls op l = 0)
    by (intros; eapply acquisition_calls; eauto).
  unfold teardown_log, teardown_result.
  repeat rewrite calls_app.
  rewrite !H0 by discriminate.
  split; [intros; apply exec_apply_to |].
  split; [| split; [| split; [| split; [| split]]]].
  - destruct (on_destroyContext b) as [[] | e1], (on_destroyStorage b) as [[[] | e2] |];
      reflexivity.
  - destruct (on_destroyContext b) as [[] | e1], (on_destroyStorage b) as [[[] | e2] |];
      reflexivity.
  - exists (l ++ [Invoked (apply_db opts) engineUpOp]). eexists.
    rewrite <- app_assoc. reflexivity.
  - destruct (on_destroyContext b) as [[] | e1], (on_destroyStorage b) as [[[] | e2] |];
      reflexivity.
  - intros e' ->. split; reflexivity.
  - intros ->. destruct (on_destroyStorage b) as [[[] | e2] |]; split; reflexivity.
Qed.

(** The same run, at a database whose engine fails and whose teardown
    succeeds. *)
Lemma apply_tears_down_witness :
  calls destroyContextOp
    (fst (observe (observed_apply [("A", failing_engine)] (apply_remaining "A" "staging"))
                  [1])) = 1.
Proof.
  exact (proj1 (proj2 (proj2 (@apply_tears_down_after_engine_failure
                                [("A", failing_engine)] (apply_remaining "A" "staging")
                                failing_engine (Error "engine") [1]
                                eq_refl (or_introl eq_refl) eq_refl eq_refl)))).
Defined.

(** C1 as worded fails: with a [destroyContext] that throws, the error of the
    teardown replaces the engine's and [destroyStorage] is never called. *)
Lemma teardown_error_replaces_engine_error :
  ~ teardown_keeps_engine_error [("A", failing_cleanup)]
      (apply_remaining "A" "staging") [].
Proof.
  intros H.
  destruct (H failing_cleanup (Error "engine") eq_refl eq_refl eq_refl) as (_ & _ & Hres).
  vm_compute in Hres. discriminate Hres.
Qed.

(** C9: [createContext] and [createStorage] are both called when the
    handler is invoked, the second without waiting for the promise of the
    first; and when either of them fails the command fails with no call of
    the engine, of [destroyContext] or of [destroyStorage], whatever the
    other factory did.  First for any callbacks: a failed acquisition ends
    the task in the world the acquisition left; then on the log of the
    handler run on probes. *)
Theorem failed_acquisition_is_not_torn_down config opts b sch :
  behaviour_of config (apply_db opts) = Some b ->
  let started := fst (observed_apply config opts []) in
  let log := fst (observe (observed_apply config opts) sch) in
  let res := snd (observe (observed_apply config opts) sch) in
  (forall (W Ctx Storage : Type)
          (Umzug_up : UmzugConfig W Ctx Storage -> UpOptions -> Async W unit)
          (globAsync : string -> Async W (list string))
          (path_resolve path_basename : string -> string)
          (db : DatabaseConfig W Ctx Storage) created_for env (w w1 : W) e sch1,
      exec (all2 (createContext db created_for) (createStorage db created_for)) sch w =
      (w1, Throw e, sch1) ->
      exec (apply_to Umzug_up globAsync path_resolve path_basename
                     db created_for env (apply_target opts) (apply_name opts)) sch w =
      (w1, Throw e, tl sch1)) /\
  (throws_at_once (on_createContext b) = false ->
   callers createContextOp started = [apply_db opts] /\
   callers createStorageOp started = [apply_db opts]) /\
  (returns_pending (on_createContext b) = true ->
   forall ok, ~ In (Completed (apply_db opts) createContextOp ok) started) /\
  (succeeds (on_createContext b) && succeeds (on_createStorage b) = false ->
   is_ok res = false /\
   (exists e, res = Throw e /\
              (failure (on_createContext b) = Some e \/
               failure (on_createStorage b) = Some e)) /\
   calls engineUpOp log = 0 /\
   calls destroyContextOp log = 0 /\
   calls destroyStorageOp log = 0).
Proof.
  intros Hb started log res. subst started log res. unfold observe.
  rewrite (observed_apply_found _ _ Hb).
  split; [| split; [| split]].
  - intros W Ctx Storage up glob res base db created_for env w w1 e sch1 Hfail.
    rewrite exec_apply_to, Hfail. reflexivity.
  - unfold apply_to, bind, all2. cbn [createContext createStorage probe_db].
    unfold probe_call.
    destruct (on_createContext b), (on_createStorage b);
      cbn; intros H; try discriminate H; split; reflexivity.
  - unfold apply_to, bind, all2. cbn [createContext createStorage probe_db].
    unfold probe_call.
    destruct (on_createContext b), (on_createStorage b);
      cbn; intros H ok Hin; try discriminate H;
      repeat (destruct Hin as [Hin | Hin]; [discriminate Hin |]); exact Hin.
  - intros Hfail. unfold apply_to. rewrite exec_bind.
    cbn [createContext createStorage probe_db].
    destruct (exec_acquire (apply_db opts) (on_createContext b) (on_createStorage b)
                sch []) as (l & sch1 & r & -> & Hl & _ & _ & Hbad).
    destruct (Hbad Hfail) as (e & -> & He). cbn [fst snd app is_ok].
    split; [reflexivity |]. split; [exists e; auto |].
    repeat split; eapply acquisition_calls; eauto; discriminate.
Qed.

(** The context is created, the storage is not: nothing is destroyed. *)
Lemma failed_acquisition_witness :
  calls destroyContextOp
    (fst (observe (observed_apply [("A", failing_storage)] (apply_remaining "A" "staging"))
                  [0; 1])) = 0.
Proof.
  exact (proj1 (proj2 (proj2 (proj2
           (proj2 (proj2 (proj2 (@failed_acquisition_is_not_torn_down
                                   [("A", failing_storage)] (apply_remaining "A" "staging")
                                   failing_storage [0; 1] eq_refl))) eq_refl))))).
Defined.



(** ** wrapMigration *)

Lemma wrapped_step_sandwiched op before after r (params : MigrationParams string) sch :
  op = upOp \/ op = downOp ->
  sandwiched op before after r
    (observe (wrapped_step (probe_hooks before after)
                           (fun _ => probe "m" op r) params) sch).
Proof.
  unfold sandwiched, observe, wrapped_step, probe_hooks, await_hook.
  cbn [runBefore runAfter].
  intros [-> | ->];
    destruct before as [eB | | | eB], r as [[] | eU], after as [eA | | | eA];
    cbv; repeat split; intros; try discriminate; try congruence.
Qed.

(** A wrapped step, whatever the hooks, the step and the world:
    [runBefore] runs to its settlement; if it failed the call fails and
    nothing else runs; otherwise the step runs from the world left; if it
    failed the call fails with its error and [runAfter] does not run;
    otherwise [runAfter] runs and decides the result. *)
Lemma exec_wrapped_step (W Ctx : Type) (before after : Sync W (Promise W unit))
    (step : MigrationParams Ctx -> Async W unit) params sch w :
  exec (wrapped_step {| runBefore := Some before; runAfter := Some after |}
                     step params) sch w =
  match exec (call before) sch w with
  | (w1, Throw e, sch1) => (w1, Throw e, tl sch1)
  | (w1, Ok _, sch1) =>
      match exec (step params) (tl sch1) w1 with
      | (w2, Throw e, sch2) => (w2, Throw e, tl sch2)
      | (w2, Ok _, sch2) =>
          match exec (call after) (tl sch2) w2 with
          | (w3, Throw e, sch3) => (w3, Throw e, tl sch3)
          | (w3, Ok _, sch3) => (w3, Ok tt, tl sch3)
          end
      end
  end.
Proof.
  unfold wrapped_step. cbn [runBefore runAfter await_hook].
  rewrite exec_bind.
  destruct (exec (call before) sch w) as [[w1 [[] | e1]] sch1]; [| reflexivity].
  rewrite exec_bind.
  destruct (exec (step params) (tl sch1) w1) as [[w2 [[] | e2]] sch2]; [| reflexivity].
  rewrite exec_bind.
  destruct (exec (call after) (tl sch2) w2) as [[w3 [[] | e3]] sch3]; reflexivity.
Qed.

(** C2: [up] of a wrapped migration awaits [runBefore] before it attempts
    the migration's [up]; a rejection of [up] propagates and [runAfter] is
    not called; when [up] is fulfilled the three are called once each, in
    order, each completed before the next starts.  First for any hooks and
    migration, as an equation on runs; then on the log of probes, for [up]
    and for the wrapped [down], which exists when the migration has a
    [down]. *)
Theorem wrapMigration_runs_hooks_around before after on_up on_down
    (params : MigrationParams string) sch :
  (forall (W Ctx : Type) (runBefore runAfter : Sync W (Promise W unit))
          (m : RunnableMigration W Ctx) (p : MigrationParams Ctx) (w : W),
      exec (up (wrapMigration {| runBefore := Some runBefore;
                                 runAfter := Some runAfter |} m) p) sch w =
      match exec (call runBefore) sch w with
      | (w1, Throw e, sch1) => (w1, Throw e, tl sch1)
      | (w1, Ok _, sch1) =>
          match exec (up m p) (tl sch1) w1 with
          | (w2, Throw e, sch2) => (w2, Throw e, tl sch2)
          | (w2, Ok _, sch2) =>
              match exec (call runAfter) (tl sch2) w2 with
              | (w3, Throw e, sch3) => (w3, Throw e, tl sch3)
              | (w3, Ok _, sch3) => (w3, Ok tt, tl sch3)
              end
          end
      end) /\
  let wrapped := wrapMigration (probe_hooks before after)
                               (probe_migration "m" on_up (Some on_down)) in
  sandwiched upOp before after on_up (observe (up wrapped params) sch) /\
  exists wrapped_down,
    down wrapped = Some wrapped_down /\
    sandwiched downOp before after on_down (observe (wrapped_down params) sch).
Proof.
  split; [intros; apply exec_wrapped_step |].
  cbn zeta. split.
  - apply wrapped_step_sandwiched. left. reflexivity.
  - eexists. split; [reflexivity |]. apply wrapped_step_sandwiched. right. reflexivity.
Qed.

(** [up] rejects after a successful [runBefore]: [runAfter] is not called. *)
Lemma wrapMigration_runs_hooks_witness :
  observe (up (wrapMigration (probe_hooks Fulfils Fulfils)
                             (probe_migration "m" (Throw (Error "up failed"))
                                              (Some (Ok tt))))
              sample_params) [] =
  ([Invoked "hooks" runBeforeOp; Completed "hooks" runBeforeOp true;
    Invoked "m" upOp; Completed "m" upOp false],
   Throw (Error "up failed")).
Proof.
  pose proof (proj1 (proj2 (wrapMigration_runs_hooks_around
                              Fulfils Fulfils (Throw (Error "up failed")) (Ok tt)
                              sample_params []))) as H.
  destruct H as (_ & _ & _ & Hthrow & _).
  destruct (Hthrow eq_refl (Error "up failed") eq_refl) as [Hlog Hres].
  apply injective_projections; assumption.
Defined.

(** C8: the wrapped migration has a [down] exactly when the migration has
    one. *)
Theorem wrapMigration_keeps_down (W Ctx : Type) (hooks : Hooks W)
    (m : RunnableMigration W Ctx) :
  (down (wrapMigration hooks m) = None <-> down m = None) /\
  (forall migration_down,
      down m = Some migration_down ->
      down (wrapMigration hooks m) = Some (wrapped_step hooks migration_down)).
Proof.
  unfold wrapMigration. cbn [down].
  destruct (down m) as [d |]; split.
  - split; discriminate.
  - intros d' [= <-]. reflexivity.
  - split; reflexivity.
  - discriminate.
Qed.

(** ** Argument checks *)

Lemma prefix_app (x rest : string) : starts_with x (x ++ rest) = true.
Proof.
  induction x as [| c x IH]; cbn.
  - reflexivity.
  - rewrite Ascii.eqb_refl. exact IH.
Qed.

Lemma contains_here (x rest : string) : contains x (x ++ rest) = true.
Proof.
  assert (H := prefix_app x rest).
  destruct (x ++ rest)%string; cbn [contains]; rewrite H; reflexivity.
Qed.

Lemma contains_later (x before s : string) :
  contains x s = true -> contains x (before ++ s) = true.
Proof.
  intros H. induction before as [| c before IH]; cbn [append]; [exact H |].
  cbn [contains]. rewrite IH. apply orb_true_r.
Qed.

Section CliFacts.

Variables W Ctx Storage : Type.
Variable Umzug_up : UmzugConfig W Ctx Storage -> UpOptions -> Async W unit.
Variable Umzug_create : UmzugCreateConfig -> CreateOptions -> Async W unit.
Variable globAsync : string -> Async W (list string).
Variables path_resolve path_basename : string -> string.
Variable dbs : list (string * DatabaseConfig W Ctx Storage).

Let dispatch := run_command Umzug_up Umzug_create globAsync path_resolve path_basename dbs.

Lemma invalid_environment_message (db : DatabaseConfig W Ctx Storage) env :
  contains (render env) (message_of (makeInvalidEnvironmentError db env)) = true /\
  contains (join ", " (supportedEnvironments db))
           (message_of (makeInvalidEnvironmentError db env)) = true.
Proof.
  unfold makeInvalidEnvironmentError, message_of. split.
  - do 2 apply contains_later. apply contains_here.
  - do 5 apply contains_later. apply contains_here.
Qed.

(** The check of a command for a configured database whose resolved
    environment it does not support: the first test that fails decides. *)
Lemma run_command_invalid_environment command db :
  lookup dbs (command_db command) = Some db ->
  includes_opt (supportedEnvironments db)
               (nullish (command_env command) (defaultEnvironment db)) = false ->
  (is_add command = true ->
   truthy (nullish (command_env command) (defaultEnvironment db)) = true) ->
  exists e,
    dispatch command = rejected e /\
    (consistent_arguments command = true ->
     e = makeInvalidEnvironmentError
           db (nullish (command_env command) (defaultEnvironment db))) /\
    (consistent_arguments command = false ->
     In e [seed_needs_environment; migration_forbids_environment;
           name_without_specific_target; specific_target_without_name]).
Proof.
  intros Hdb Hout Hadd.
  subst dispatch. destruct command as [opts | opts | opts | opts | opts];
    cbn [command_db command_env is_add consistent_arguments] in *;
    unfold run_command, checked.
  - unfold add_check.
    destruct (add_type opts); cbn [is_seed is_migration andb negb].
    + destruct (truthy (add_env opts)) eqn:Hflag; cbn [negb].
      * eexists. split; [reflexivity |]. cbn. intuition (try discriminate).
      * rewrite (@getEnv_found _ _ _ _ _ _ _ Hdb), (Hadd eq_refl).
        unfold with_db. rewrite Hdb, Hout. cbn [negb].
        eexists. split; [reflexivity |]. intuition (try discriminate).
    + destruct (truthy (add_env opts)) eqn:Hflag; cbn [negb].
      * rewrite (@getEnv_found _ _ _ _ _ _ _ Hdb), (Hadd eq_refl).
        unfold with_db. rewrite Hdb, Hout. cbn [negb].
        eexists. split; [reflexivity |]. intuition (try discriminate).
      * eexists. split; [reflexivity |]. cbn. intuition (try discriminate).
  - unfold apply_check. rewrite (@getEnv_found _ _ _ _ _ _ _ Hdb).
    unfold with_db. rewrite Hdb, Hout.
    destruct (needsSpecificScript (apply_target opts)),
             (truthy (apply_name opts)); cbn [negb andb Bool.eqb];
      eexists; (split; [reflexivity |]); cbn; intuition (try discriminate).
  - unfold environment_check. rewrite (@getEnv_found _ _ _ _ _ _ _ Hdb).
    unfold with_db. rewrite Hdb, Hout.
    eexists. split; [reflexivity |]. intuition (try discriminate).
  - unfold environment_check. rewrite (@getEnv_found _ _ _ _ _ _ _ Hdb).
    unfold with_db. rewrite Hdb, Hout.
    eexists. split; [reflexivity |]. intuition (try discriminate).
  - unfold environment_check. rewrite (@getEnv_found _ _ _ _ _ _ _ Hdb).
    unfold with_db. rewrite Hdb, Hout.
    eexists. split; [reflexivity |]. intuition (try discriminate).
Qed.

(** C6, as cli.ts has it.  A command for a configured database whose
    resolved environment (the flag, else the database's default) is not
    one the database supports fails before anything is acquired, created
    or changed: the world and the schedule are left as they were.  What
    it fails with is decided in this order.  yargs refuses the command
    when a demanded option is missing or a value is outside its choices:
    [apply-scripts], [clean], [drop] and [create] demand [--env], so that
    without the flag they stop with the missing-argument error and the
    default environment is never used; only [add] resolves to the default.
    Then the command's check runs its tests in the order written: the
    presence of [--env] against the type for [add], the name against the
    target for [apply-scripts].  Then comes the invalid-environment error,
    whose message names the environment and lists the supported ones.
    [add] validates an environment only when there is one. *)
Theorem invalid_environment_is_rejected command db sch w :
  lookup dbs (command_db command) = Some db ->
  includes_opt (supportedEnvironments db)
               (nullish (command_env command) (defaultEnvironment db)) = false ->
  (is_add command = true ->
   truthy (nullish (command_env command) (defaultEnvironment db)) = true) ->
  exists e,
    exec (command_line Umzug_up Umzug_create globAsync path_resolve path_basename dbs
                       command) sch w = (w, Throw e, sch) /\
    (forall refusal, validate dbs command = Throw refusal -> e = refusal) /\
    (is_add command = false -> command_env command = None ->
     e = missing_required_argument "env") /\
    (validate dbs command = Ok tt -> consistent_arguments command = true ->
     e = makeInvalidEnvironmentError
           db (nullish (command_env command) (defaultEnvironment db))) /\
    (validate dbs command = Ok tt -> consistent_arguments command = false ->
     In e [seed_needs_environment; migration_forbids_environment;
           name_without_specific_target; specific_target_without_name]) /\
    contains (render (nullish (command_env command) (defaultEnvironment db)))
             (message_of (makeInvalidEnvironmentError
                            db (nullish (command_env command) (defaultEnvironment db))))
    = true /\
    contains (join ", " (supportedEnvironments db))
             (message_of (makeInvalidEnvironmentError
                            db (nullish (command_env command) (defaultEnvironment db))))
    = true.
Proof.
  intros Hdb Hout Hadd.
  pose proof (invalid_environment_message
                db (nullish (command_env command) (defaultEnvironment db)))
    as [Hnames Hlists].
  destruct (run_command_invalid_environment command Hdb Hout Hadd)
    as (e & Hrun & Hconsistent & Hinconsistent).
  assert (Hmissing : is_add command = false -> command_env command = None ->
                     validate dbs command = Throw (missing_required_argument "env")).
  { destruct command as [opts | opts | opts | opts | opts];
      cbn [is_add command_env validate]; intros Hno Henv;
      try discriminate Hno; rewrite Henv; reflexivity. }
  unfold command_line. destruct (validate dbs command) as [[] | refusal] eqn:Hvalid.
  - exists e. fold dispatch. rewrite Hrun.
    split; [reflexivity |]. split; [discriminate |].
    split; [intros Hno Henv; discriminate (Hmissing Hno Henv) |].
    split; [intros _; exact Hconsistent |].
    split; [intros _; exact Hinconsistent |].
    split; assumption.
  - exists refusal. split; [reflexivity |].
    split; [intros ? [= <-]; reflexivity |].
    split; [intros Hno Henv; specialize (Hmissing Hno Henv); congruence |].
    split; [discriminate |]. split; [discriminate |]. split; assumption.
Qed.

(** C7: [add] with a seed and no environment, or with a migration and an
    environment, is rejected by the check: the handler is not run, so no
    file is written.  An environment counts as given when the flag holds
    a non-empty string, which is how the check reads it. *)
Theorem add_rejects_wrong_environment_presence opts sch w :
  (add_type opts = seed /\ truthy (add_env opts) = false) \/
  (add_type opts = migration /\ truthy (add_env opts) = true) ->
  exec (dispatch (Add opts)) sch w =
  (w,
   Throw (match add_type opts with
          | seed => seed_needs_environment
          | migration => migration_forbids_environment
          end),
   sch).
Proof.
  intros [[Htype Hflag] | [Htype Hflag]]; subst dispatch;
    unfold run_command, checked, add_check; rewrite Htype, Hflag; reflexivity.
Qed.

End CliFacts.

(** [clean --db A --env bogus]: rejected with the invalid-environment
    error, nothing called. *)
Lemma invalid_environment_witness :
  exists e,
    exec (observed_command_line [("A", sample_behaviour)] (Ok tt) (Clean clean_bogus))
         [0] [] =
    ([], Throw e, [0]) /\
    e = makeInvalidEnvironmentError (probe_db "A" sample_behaviour) (Some "bogus").
Proof.
  destruct (@invalid_environment_is_rejected
              Log string string
              (probe_up [("A", sample_behaviour)]) (probe_create (Ok tt))
              (probe_glob []) (fun p => p) (fun p => p)
              (probe_dbs [("A", sample_behaviour)])
              (Clean clean_bogus) (probe_db "A" sample_behaviour) [0] []
              eq_refl eq_refl (fun H => False_ind _ (Bool.diff_false_true H)))
    as (e & Hrun & _ & _ & Hconsistent & _).
  exists e. split; [exact Hrun | exact (Hconsistent eq_refl eq_refl)].
Defined.

(** C6 as worded fails, in four ways.  [apply-scripts only --env bogus]
    without a name is rejected for the missing name, and that message does
    not mention the environment.  [clean --db A] without [--env] is refused
    by yargs for the missing flag: the default environment is not resolved.
    [add db1 migration add-users] on a database without a default
    environment resolves to no environment, which the database does not
    support, and the file is created all the same.  In the multi-database
    revision [apply-scripts --env demo --db A] runs the engine on a
    database that supports staging and prod only. *)
Lemma invalid_environment_is_not_always_reported :
  ~ names_invalid_environment [("A", sample_behaviour)]
      (Apply (apply_only_without_name "A" "bogus")) /\
  ~ names_invalid_environment [("A", sample_behaviour)]
      (Clean clean_without_environment) /\
  ~ names_invalid_environment [("db1", sample_behaviour)]
      (Add add_plain_migration) /\
  (includes (environments sample_behaviour) "demo" = false /\
   snd (observe (observed_multi_apply_command [("A", sample_behaviour)]
                   "remaining" None (Some "demo") ["A"]) []) = Ok tt /\
   calls engineUpOp
         (fst (observe (observed_multi_apply_command [("A", sample_behaviour)]
                         "remaining" None (Some "demo") ["A"]) [])) = 1).
Proof.
  split; [| split; [| split]].
  - intros H.
    destruct (H sample_behaviour [] eq_refl eq_refl) as (msg & Hrun & Hnames & _).
    vm_compute in Hrun. injection Hrun as <-.
    vm_compute in Hnames. discriminate Hnames.
  - intros H.
    destruct (H sample_behaviour [] eq_refl eq_refl) as (msg & Hrun & Hnames & _).
    vm_compute in Hrun. injection Hrun as <-.
    vm_compute in Hnames. discriminate Hnames.
  - intros H.
    destruct (H sample_behaviour [] eq_refl eq_refl) as (msg & Hrun & _).
    vm_compute in Hrun. discriminate Hrun.
  - vm_compute. repeat split.
Qed.

(** [add db1 migration myseed --env demo]: rejected, nothing called. *)
Lemma add_rejects_witness :
  observe (observed_command [("db1", sample_behaviour)] (Ok tt)
                            (Add add_migration_with_environment)) [] =
  ([], Throw migration_forbids_environment).
Proof.
  exact (f_equal fst
           (@add_rejects_wrong_environment_presence
              Log string string
              (probe_up [("db1", sample_behaviour)]) (probe_create (Ok tt))
              (probe_glob []) (fun p => p) (fun p => p)
              (probe_dbs [("db1", sample_behaviour)])
              add_migration_with_environment [] []
              (or_intror (conj eq_refl eq_refl)))).
Defined.

(** ** One database after the other *)

Lemma owned_calls who op block :
  owned_by who block -> calls op block = 1 -> callers op block = [who].
Proof.
  unfold calls, callers. intros Hown.
  induction Hown as [| ev block Hev _ IH]; cbn [filter]; [discriminate |].
  destruct (is_call op ev); [| exact IH].
  cbn [List.length map]. intros [= Hlen]. rewrite Hev. f_equal.
  destruct (filter (is_call op) block); [reflexivity | discriminate Hlen].
Qed.

Lemma acquisition_owned who l :
  Forall (acquisition_event who) l -> owned_by who l.
Proof.
  intros H. unfold owned_by. eapply Forall_impl; [| exact H].
  intros ev [Hwho _]. exact Hwho.
Qed.

Lemma teardown_owned who b : owned_by who (teardown_log who b).
Proof.
  unfold owned_by, teardown_log.
  destruct (on_destroyContext b), (on_destroyStorage b); repeat constructor.
Qed.

Lemma teardown_calls who b : calls createContextOp (teardown_log who b) = 0.
Proof.
  unfold teardown_log.
  destruct (on_destroyContext b), (on_destroyStorage b); reflexivity.
Qed.

(** The engine call for a context logs events of that context's database
    only, whatever the target. *)
Lemma exec_engine_call_owned config who target name migrator sch log :
  context migrator = who ->
  exists l r sch',
    exec (engine_call (probe_up config) migrator target name) sch log =
    (log ++ l, r, sch') /\
    owned_by who l /\ calls createContextOp l = 0.
Proof.
  intros Hctx.
  assert (Hup : forall o,
             exists l r sch',
               exec (bind (probe_up config migrator o) (fun _ => resolved tt)) sch log =
               (log ++ l, r, sch') /\
               owned_by who l /\ calls createContextOp l = 0).
  { intros o. rewrite exec_bind. unfold probe_up. rewrite Hctx, exec_probe.
    destruct (match behaviour_of config who with
              | Some b => on_engine_up b
              | None => Ok tt
              end) as [[] | e];
      do 3 eexists; (split; [reflexivity |]); split;
      try reflexivity; repeat constructor. }
  unfold engine_call.
  destruct (target =? "remaining"); [apply Hup |].
  destruct (target =? "next"); [apply Hup |].
  destruct (target =? "only"); [apply Hup |].
  destruct (target =? "until"); [apply Hup |].
  exists [], (Ok tt), sch. rewrite app_nil_r.
  split; [reflexivity | split; [constructor | reflexivity]].
Qed.

(** One database's run logs a block of its own events, with one call of
    [createContext]. *)
Lemma exec_apply_to_block config who b created_for env target name sch log :
  exists l r sch',
    exec (apply_to (probe_up config) (probe_glob []) (fun p => p) (fun p => p)
                   (probe_db who b) created_for env target name) sch log =
    (log ++ l, r, sch') /\
    owned_by who l /\ callers createContextOp l = [who].
Proof.
  unfold apply_to. rewrite exec_bind.
  cbn [createContext createStorage probe_db].
  destruct (exec_acquire who (on_createContext b) (on_createStorage b) sch log)
    as (l & sch1 & r & -> & Hl & Hcalls & Hgood & Hbad).
  pose proof (acquisition_owned Hl) as Hown.
  destruct (succeeds (on_createContext b) && succeeds (on_createStorage b)).
  - rewrite (Hgood eq_refl). cbn [fst snd]. rewrite exec_try_finally.
    match goal with
    | |- context [exec (engine_call _ ?m _ _) ?s ?w] =>
        destruct (@exec_engine_call_owned config who target name m s w eq_refl)
          as (l2 & r2 & sch2 & -> & Hown2 & Hcalls2)
    end.
    destruct (exec_teardown who b (tl sch2) ((log ++ l) ++ l2)) as [sch3 ->].
    exists (l ++ l2 ++ teardown_log who b). repeat rewrite <- app_assoc.
    assert (Hall : owned_by who (l ++ l2 ++ teardown_log who b)).
    { unfold owned_by in *. repeat (apply Forall_app; split); auto.
      apply teardown_owned. }
    assert (Hone : callers createContextOp (l ++ l2 ++ teardown_log who b) = [who]).
    { apply owned_calls; [exact Hall |].
      rewrite !calls_app, Hcalls, Hcalls2, teardown_calls. reflexivity. }
    destruct (teardown_result b); do 2 eexists; (split; [reflexivity | auto]).
  - destruct (Hbad eq_refl) as (e & -> & _).
    exists l. do 2 eexists. split; [reflexivity |]. split; [exact Hown |].
    apply owned_calls; assumption.
Qed.

Lemma includes_In l s : includes l s = true <-> In s l.
Proof.
  unfold includes. rewrite existsb_exists. split.
  - intros (x & Hin & Heq). apply String.eqb_eq in Heq. subst. exact Hin.
  - intros Hin. exists s. split; [exact Hin | apply String.eqb_refl].
Qed.

Lemma selected_probe_dbs config flags :
  selected (probe_dbs config) flags =
  probe_dbs (filter (fun entry => includes flags (fst entry)) config).
Proof.
  unfold selected, probe_dbs.
  induction config as [| [who b] rest IH]; cbn [map filter fst]; [reflexivity |].
  destruct (includes flags who); cbn [map fst snd]; rewrite IH; reflexivity.
Qed.

Lemma selected_names config flags :
  map fst (selected (probe_dbs config) flags) =
  filter (fun n => includes flags n) (map fst config).
Proof.
  rewrite selected_probe_dbs. unfold probe_dbs.
  induction config as [| [who b] rest IH]; cbn [map filter fst]; [reflexivity |].
  destruct (includes flags who); cbn [map fst]; rewrite IH; reflexivity.
Qed.

(** The tasks of the multi-database [apply-scripts], run one after the
    other, log one block per database started, in the order of the entries. *)
Lemma continue_blocks config env target name entries :
  forall r log sch,
  exists k blocks r' sch',
    continue (map (fun entry => fun _ : unit =>
                     apply_to (probe_up config) (probe_glob []) (fun p => p) (fun p => p)
                              (snd entry) None env target name)
                  (probe_dbs entries)) r log sch =
    (log ++ List.concat blocks, r', sch') /\
    Forall2 (fun who block => owned_by who block /\
                              callers createContextOp block = [who])
            (firstn k (map fst entries)) blocks.
Proof.
  induction entries as [| [who b] rest IH]; intros r log sch; cbn [map probe_dbs continue].
  - exists 0, [], r, sch. cbn. rewrite app_nil_r. split; [reflexivity | constructor].
  - destruct r as [[] | e].
    + cbn [fst snd].
      destruct (@exec_apply_to_block config who b None env target name (tl sch) log)
        as (l & r1 & sch1 & -> & Hown & Hone).
      destruct (IH r1 (log ++ l) sch1) as (k & blocks & r' & sch' & Hrun & Hblocks).
      unfold probe_dbs in Hrun. rewrite Hrun.
      exists (S k), (l :: blocks), r', sch'. cbn [List.concat firstn map fst].
      rewrite <- app_assoc. split; [reflexivity |].
      constructor; [split; assumption | exact Hblocks].
    + exists 0, [].
      assert (Hskip : forall (tasks : list (unit -> Async Log unit)) s,
                 exists s', continue tasks (Throw e) log s = (log, Throw e, s')).
      { induction tasks as [| t tasks IHt]; intros s; cbn [continue].
        - exists s. reflexivity.
        - apply IHt. }
      match goal with
      | |- context [continue ?tasks (Throw e) log (tl sch)] =>
          destruct (Hskip tasks (tl sch)) as [s' ->]
      end.
      exists (Throw e), s'. cbn. rewrite app_nil_r. split; [reflexivity | constructor].
Qed.

Lemma observed_multi_apply_blocks config target name env optDbs sch :
  exists k blocks,
    fst (observe (observed_multi_apply config target name env optDbs) sch) =
    List.concat blocks /\
    Forall2 (fun who block => owned_by who block /\
                              callers createContextOp block = [who])
            (firstn k (map fst (selected (probe_dbs config) (flags_of optDbs))))
            blocks.
Proof.
  unfold observe, observed_multi_apply, multi_apply_handler, exec, in_sequence.
  rewrite run_chain. cbn [run].
  fold (flags_of optDbs). rewrite selected_names, selected_probe_dbs.
  destruct (@continue_blocks config env target name
              (filter (fun entry => includes (flags_of optDbs) (fst entry)) config)
              (Ok tt) [] sch) as (k & blocks & r' & sch' & -> & Hblocks).
  exists k, blocks. split; [reflexivity |].
  rewrite <- selected_names, selected_probe_dbs.
  unfold probe_dbs. rewrite map_map. cbn [fst]. exact Hblocks.
Qed.

Lemma block_names (P : string -> Log -> Prop) names blocks k ev :
  (forall who block, P who block -> owned_by who block) ->
  Forall2 P (firstn k names) blocks ->
  In ev (List.concat blocks) ->
  In (who_of ev) names.
Proof.
  intros HP H. revert names k H.
  induction blocks as [| block blocks IH]; intros names k H Hin; [destruct Hin |].
  destruct names as [| n names]; [rewrite firstn_nil in H; inversion H |].
  destruct k as [| k]; [inversion H |].
  cbn [firstn] in H. inversion H as [| ? ? ? ? Hblock Hrest]; subst.
  cbn [List.concat] in Hin. apply in_app_or in Hin. destruct Hin as [Hin | Hin].
  - left. apply HP in Hblock. unfold owned_by in Hblock.
    rewrite Forall_forall in Hblock. symmetry. apply Hblock. exact Hin.
  - right. eapply IH; eauto.
Qed.

Lemma position_later n who names :
  n <> who -> position who (n :: names) = S (position who names).
Proof.
  intros Hne. cbn [position].
  destruct (String.eqb_spec n who); [contradiction | reflexivity].
Qed.

(** In a concatenation of blocks owned by distinct databases, the events
    of a database that comes earlier precede those of one that comes later. *)
Lemma blocks_in_order (P : string -> Log -> Prop) names :
  (forall who block, P who block -> owned_by who block) ->
  NoDup names ->
  forall blocks k,
    Forall2 P (firstn k names) blocks ->
    forall i j ei ej,
      nth_error (List.concat blocks) i = Some ei ->
      nth_error (List.concat blocks) j = Some ej ->
      position (who_of ei) names < position (who_of ej) names ->
      i < j.
Proof.
  intros HP Hnodup.
  induction Hnodup as [| n names Hfresh Hnodup IH]; intros blocks k H i j ei ej Hi Hj Hlt.
  - rewrite firstn_nil in H. inversion H; subst. destruct i; discriminate Hi.
  - destruct k as [| k]; [inversion H; subst; destruct i; discriminate Hi |].
    cbn [firstn] in H. inversion H as [| ? block ? rest Hblock Hrest]; subst.
    cbn [List.concat] in Hi, Hj.
    pose proof (HP _ _ Hblock) as Hown. unfold owned_by in Hown.
    rewrite Forall_forall in Hown.
    destruct (Nat.lt_ge_cases i (List.length block)) as [Hi_in | Hi_out];
      destruct (Nat.lt_ge_cases j (List.length block)) as [Hj_in | Hj_out].
    + rewrite nth_error_app1 in Hi, Hj by assumption.
      apply nth_error_In in Hi, Hj. rewrite (Hown _ Hi), (Hown _ Hj) in Hlt. lia.
    + lia.
    + rewrite nth_error_app1 in Hj by assumption.
      apply nth_error_In in Hj. rewrite (Hown _ Hj) in Hlt.
      cbn [position] in Hlt. rewrite String.eqb_refl in Hlt. lia.
    + rewrite nth_error_app2 in Hi, Hj by assumption.
      assert (Hei : In (who_of ei) names)
        by (eapply block_names; eauto using nth_error_In).
      assert (Hej : In (who_of ej) names)
        by (eapply block_names; eauto using nth_error_In).
      rewrite !position_later in Hlt by (intros ->; contradiction).
      assert (i - List.length block < j - List.length block)
        by (eapply IH; eauto; lia).
      lia.
Qed.

(** The multi-database [apply-scripts], whatever the callbacks, the engine
    and the world: its run is the runs of the selected databases' tasks one
    after the other. *)
Lemma exec_multi_apply (W Ctx Storage : Type)
    (Umzug_up : UmzugConfig W Ctx Storage -> UpOptions -> Async W unit)
    (globAsync : string -> Async W (list string))
    (path_resolve path_basename : string -> string)
    (dbs : list (string * DatabaseConfig W Ctx Storage))
    target name env optDbs sch w :
  exec (multi_apply_handler Umzug_up globAsync path_resolve path_basename dbs
                            target name env optDbs) sch w =
  continue (map (fun entry => fun _ : unit =>
                   apply_to Umzug_up globAsync path_resolve path_basename
                            (snd entry) None env target name)
                (selected dbs (flags_of optDbs)))
           (Ok tt) w sch.
Proof.
  unfold exec, multi_apply_handler, in_sequence. rewrite run_chain. reflexivity.
Qed.

(** C3: the multi-database [apply-scripts] processes the selected databases
    strictly one after the other.  For any callbacks and engine, the run of
    the handler is the run of each database's task to its settlement
    (teardown included), the next task starting from the world the
    previous one left, and not at all after a failure.  On probes: every
    event of a database that comes earlier among the selected ones
    (acquisition, engine call, teardown) precedes every event of a
    database that comes later, whatever the schedule. *)
Theorem databases_run_one_after_the_other config target name env optDbs sch :
  (forall (W Ctx Storage : Type)
          (Umzug_up : UmzugConfig W Ctx Storage -> UpOptions -> Async W unit)
          (globAsync : string -> Async W (list string))
          (path_resolve path_basename : string -> string)
          (dbs : list (string * DatabaseConfig W Ctx Storage)) (w : W),
      exec (multi_apply_handler Umzug_up globAsync path_resolve path_basename dbs
                                target name env optDbs) sch w =
      continue (map (fun entry => fun _ : unit =>
                       apply_to Umzug_up globAsync path_resolve path_basename
                                (snd entry) None env target name)
                    (selected dbs (flags_of optDbs)))
               (Ok tt) w sch) /\
  (NoDup (map fst config) ->
   forall i j ei ej,
     nth_error (fst (observe (observed_multi_apply config target name env optDbs) sch)) i
     = Some ei ->
     nth_error (fst (observe (observed_multi_apply config target name env optDbs) sch)) j
     = Some ej ->
     position (who_of ei) (map fst (selected (probe_dbs config) (flags_of optDbs))) <
     position (who_of ej) (map fst (selected (probe_dbs config) (flags_of optDbs))) ->
     i < j).
Proof.
  split; [intros; apply exec_multi_apply |].
  intros Hnodup i j ei ej.
  destruct (observed_multi_apply_blocks config target name env optDbs sch)
    as (k & blocks & -> & Hblocks).
  eapply blocks_in_order; [| | exact Hblocks].
  - intros who block [Hown _]. exact Hown.
  - rewrite selected_names. apply NoDup_filter. exact Hnodup.
Qed.

(** Databases A then B, flags B then A: the last event of A's teardown
    comes before B's first call. *)
Lemma databases_run_one_after_the_other_witness :
  nth_error (fst (observe (observed_multi_apply two_databases "remaining" None
                             (Some "staging") (Some ["B"; "A"])) [])) 9
  = Some (Completed "A" destroyStorageOp true) /\
  nth_error (fst (observe (observed_multi_apply two_databases "remaining" None
                             (Some "staging") (Some ["B"; "A"])) [])) 10
  = Some (Invoked "B" createContextOp) /\
  9 < 10.
Proof.
  assert (Hnodup : NoDup (map fst two_databases)).
  { repeat constructor; cbn; intuition discriminate. }
  split; [reflexivity | split; [reflexivity |]].
  refine (proj2 (@databases_run_one_after_the_other
                   two_databases "remaining" None (Some "staging") (Some ["B"; "A"]) [])
                Hnodup 9 10 _ _ eq_refl eq_refl _).
  vm_compute. constructor.
Defined.

(** By contrast the handlers built on [Promise.all] interleave the
    databases: under this schedule [clean] drops both before it prepares
    either. *)
Lemma multi_clean_interleaves :
  fst (observe (multi_clean_handler (probe_dbs two_databases) ["A"; "B"])
               [0; 1; 0; 1; 0; 1; 0; 1]) =
  [Invoked "A" dropOp; Invoked "B" dropOp;
   Completed "A" dropOp false; Completed "B" dropOp true;
   Invoked "A" prepareOp; Invoked "B" prepareOp;
   Completed "A" prepareOp true; Completed "B" prepareOp true].
Proof. reflexivity. Qed.

(** ** Selection follows the configuration *)

Lemma start_all_probes (f : DatabaseConfig Log string string -> Async Log unit) op :
  (forall who b log, exists p, f (probe_db who b) log = (log ++ [Invoked who op], p)) ->
  forall entries log,
    fst (start_all (map (fun entry => f (snd entry)) (probe_dbs entries)) log) =
    log ++ map (fun entry => Invoked (fst entry) op) entries.
Proof.
  intros Hf. induction entries as [| [who b] rest IH]; intros log;
    cbn [probe_dbs map start_all fst snd].
  - rewrite app_nil_r. reflexivity.
  - destruct (Hf who b log) as [p ->].
    specialize (IH (log ++ [Invoked who op])). unfold probe_dbs in IH.
    match goal with
    | |- context [start_all ?calls (log ++ [Invoked who op])] =>
        destruct (start_all calls (log ++ [Invoked who op])) as [w2 ps]
    end.
    cbn [fst] in *. rewrite IH, <- app_assoc. reflexivity.
Qed.

Lemma callers_of_calls op (entries : list (string * DbBehaviour)) :
  callers op (map (fun entry => Invoked (fst entry) op) entries) = map fst entries.
Proof.
  unfold callers. induction entries as [| [who b] rest IH]; [reflexivity |].
  cbn [map filter is_call fst].
  replace (Op_eqb op op) with true by (destruct op; reflexivity).
  cbn [map who_of]. rewrite IH. reflexivity.
Qed.

Lemma started_by_each op flags config
      (f : DatabaseConfig Log string string -> Async Log unit) :
  (forall who b log, exists p, f (probe_db who b) log = (log ++ [Invoked who op], p)) ->
  started_by op (for_each_selected (probe_dbs config) flags f) =
  filter (fun n => includes flags n) (map fst config).
Proof.
  intros Hf. unfold started_by, for_each_selected.
  rewrite selected_probe_dbs.
  pose proof (@start_all_probes f op Hf
                (filter (fun entry => includes flags (fst entry)) config) []) as H.
  match goal with
  | |- context [start_all ?calls []] => destruct (start_all calls []) as [w ps]
  end.
  cbn [fst] in *. subst w. cbn [app].
  rewrite callers_of_calls, <- selected_names, selected_probe_dbs.
  unfold probe_dbs. rewrite map_map. reflexivity.
Qed.

Lemma call_all_probes (f : DatabaseConfig Log string string ->
                           Sync Log (Promise Log unit)) op :
  (forall who b log,
      exists p, f (probe_db who b) log = (log ++ [Invoked who op], Ok p)) ->
  forall entries log,
  exists ps,
    call_all (map (fun entry => f (snd entry)) (probe_dbs entries)) log =
    (log ++ map (fun entry => Invoked (fst entry) op) entries, Ok ps).
Proof.
  intros Hf. induction entries as [| [who b] rest IH]; intros log;
    cbn [probe_dbs map call_all fst snd].
  - exists []. rewrite app_nil_r. reflexivity.
  - destruct (Hf who b log) as [p ->].
    destruct (IH (log ++ [Invoked who op])) as [ps Hrest].
    unfold probe_dbs in Hrest. rewrite Hrest.
    exists (p :: ps). rewrite <- app_assoc. reflexivity.
Qed.

Lemma started_by_each_call op flags config
      (f : DatabaseConfig Log string string -> Sync Log (Promise Log unit)) :
  (forall who b log,
      exists p, f (probe_db who b) log = (log ++ [Invoked who op], Ok p)) ->
  started_by op (call_each_selected (probe_dbs config) flags f) =
  filter (fun n => includes flags n) (map fst config).
Proof.
  intros Hf. unfold started_by, call_each_selected.
  rewrite selected_probe_dbs.
  destruct (@call_all_probes f op Hf
              (filter (fun entry => includes flags (fst entry)) config) [])
    as [ps ->].
  cbn [fst app].
  rewrite callers_of_calls, <- selected_names, selected_probe_dbs.
  unfold probe_dbs. rewrite map_map. reflexivity.
Qed.

Lemma callers_blocks op names blocks :
  Forall2 (fun who block => owned_by who block /\ callers op block = [who])
          names blocks ->
  callers op (List.concat blocks) = names.
Proof.
  induction 1 as [| who block names blocks [_ Hone] _ IH]; [reflexivity |].
  cbn [List.concat]. rewrite callers_app, Hone, IH. reflexivity.
Qed.

Section Selection.

Variables W Ctx Storage : Type.
Variable dbs : list (string * DatabaseConfig W Ctx Storage).

Lemma selected_same_flags flags flags' :
  (forall n, In n flags <-> In n flags') ->
  selected dbs flags = selected dbs flags'.
Proof.
  intros Hsame. unfold selected. apply filter_ext. intros [who db]. cbn [fst].
  destruct (includes flags who) eqn:E.
  - symmetry. apply includes_In, Hsame, includes_In, E.
  - destruct (includes flags' who) eqn:E'; [| reflexivity].
    apply includes_In, Hsame, includes_In in E'. congruence.
Qed.

End Selection.

(** C10: the multi-database handlers take the databases in the order of
    the configuration's entries, whatever the order of the [--db] flags.
    The same flags in another order select the same entries, hence give
    the same handler; [apply-scripts] starts the databases in
    configuration order (a prefix of them when a task fails), and [clean],
    [drop] and [create] make their first call for each database in that
    order. *)
Theorem databases_follow_configuration_order config flags flags' target name env sch :
  (forall n, In n flags <-> In n flags') ->
  (selected (probe_dbs config) flags = selected (probe_dbs config) flags' /\
   observed_multi_apply config target name env (Some flags) =
   observed_multi_apply config target name env (Some flags') /\
   multi_clean_handler (probe_dbs config) flags =
   multi_clean_handler (probe_dbs config) flags' /\
   multi_drop_handler (probe_dbs config) flags =
   multi_drop_handler (probe_dbs config) flags' /\
   multi_create_handler (probe_dbs config) flags =
   multi_create_handler (probe_dbs config) flags') /\
  map fst (selected (probe_dbs config) flags) =
  filter (fun n => includes flags n) (map fst config) /\
  (exists k,
      callers createContextOp
        (fst (observe (observed_multi_apply config target name env (Some flags)) sch)) =
      firstn k (filter (fun n => includes flags n) (map fst config))) /\
  started_by dropOp (multi_clean_handler (probe_dbs config) flags) =
  filter (fun n => includes flags n) (map fst config) /\
  started_by dropOp (multi_drop_handler (probe_dbs config) flags) =
  filter (fun n => includes flags n) (map fst config) /\
  started_by prepareOp (multi_create_handler (probe_dbs config) flags) =
  filter (fun n => includes flags n) (map fst config).
Proof.
  intros Hsame.
  pose proof (@selected_same_flags _ _ _ (probe_dbs config) flags flags' Hsame) as Hsel.
  split; [| split; [| split; [| split; [| split]]]].
  - split; [exact Hsel |].
    unfold observed_multi_apply, multi_apply_handler, multi_clean_handler,
      multi_drop_handler, multi_create_handler, for_each_selected,
      call_each_selected.
    rewrite Hsel. repeat split; reflexivity.
  - apply selected_names.
  - destruct (observed_multi_apply_blocks config target name env (Some flags) sch)
      as (k & blocks & -> & Hblocks).
    exists k. rewrite (@callers_blocks _ _ _ Hblocks). cbn [flags_of].
    rewrite selected_names. reflexivity.
  - apply started_by_each. intros who b log. eexists. reflexivity.
  - apply started_by_each_call. intros who b log. eexists. reflexivity.
  - apply started_by_each_call. intros who b log. eexists. reflexivity.
Qed.

(** Databases A then B in the configuration, flags B then A: A is started
    first. *)
Lemma databases_follow_configuration_order_witness :
  callers createContextOp
    (fst (observe (observed_multi_apply two_databases "remaining" None
                     (Some "staging") (Some ["B"; "A"])) [])) = ["A"; "B"] /\
  started_by dropOp (multi_clean_handler (probe_dbs two_databases) ["B"; "A"]) =
  ["A"; "B"].
Proof.
  assert (Hsame : forall n, In n ["B"; "A"] <-> In n ["A"; "B"])
    by (intros n; cbn; intuition).
  pose proof (@databases_follow_configuration_order
                two_databases ["B"; "A"] ["A"; "B"] "remaining" None (Some "staging") []
                Hsame) as (_ & _ & _ & Hclean & _).
  split; [reflexivity | exact Hclean].
Defined.

(** ** Script names *)































(** * Further properties of the code *)

(** ** Loading the configuration *)

(** X1: cli.ts takes the databases of [.migrator.config.mjs] when it loads
    and then does not import [.migrator.config.js]; it imports the [.js]
    file only when the [.mjs] one is not found; an error other than
    not-found, of either file, is rethrown as it is and never replaced;
    the could-not-find error is raised only when the second import fails
    with not-found. *)
Theorem load_databases_reports_errors_as_they_are (D : Type)
    (resolve : string -> string) (files : string -> option D + Thrown) :
  let mjs := resolve "./.migrator.config.mjs" in
  let js := resolve "./.migrator.config.js" in
  let imported := fst (load_databases resolve (importing files) []) in
  let result := snd (load_databases resolve (importing files) []) in
  (forall d, files mjs = inl (Some d) -> imported = [mjs] /\ result = inl d) /\
  (forall e, files mjs = inr e -> other_than_not_found e = true ->
             imported = [mjs] /\ result = inr e) /\
  (forall e, files mjs = inr e -> other_than_not_found e = false ->
             imported = [mjs; js] /\
             (forall d, files js = inl (Some d) -> result = inl d) /\
             (forall e', files js = inr e' -> other_than_not_found e' = true ->
                         result = inr e') /\
             (forall e', files js = inr e' -> other_than_not_found e' = false ->
                         result = inr missing_config)) /\
  (files mjs = inl None -> imported = [mjs] /\ result = inr no_default_export).
Proof.
  cbn zeta. unfold load_databases, importing. cbn [app].
  repeat split; intros;
    repeat match goal with
           | H : files _ = _ |- _ => rewrite H
           | H : other_than_not_found _ = _ |- _ => rewrite H
           end;
    try reflexivity;
    match goal with
    | |- context [files ?p] => destruct (files p) as [[d' |] | e'']; reflexivity
    end.
Qed.

(** A broken [.mjs] beside a good [.js]: the error of the [.mjs] is the
    result, and the [.js] is not imported. *)
Lemma load_databases_witness :
  load_databases (fun p => p) (importing (broken_mjs_beside_js (Some 7))) [] =
  (["./.migrator.config.mjs"], inr syntax_error).
Proof.
  pose proof (@load_databases_reports_errors_as_they_are
                nat (fun p => p) (broken_mjs_beside_js (Some 7))) as H.
  cbn zeta in H. destruct H as (_ & Hother & _).
  destruct (Hother syntax_error eq_refl eq_refl) as [Himported Hresult].
  apply injective_projections; assumption.
Defined.

(** X2: the multi-database revision imports [.migrator.config.js] after any
    failure of the [.mjs] import, and reports any failure of the second
    import as a missing configuration, whatever the error was. *)
Theorem multi_load_databases_masks_errors (D : Type)
    (resolve : string -> string) (files : string -> D + Thrown) :
  let mjs := resolve ".migrator.config.mjs" in
  let js := resolve ".migrator.config.js" in
  let imported := fst (multi_load_databases resolve (importing files) []) in
  let result := snd (multi_load_databases resolve (importing files) []) in
  (forall d, files mjs = inl d -> imported = [mjs] /\ result = inl d) /\
  (forall e, files mjs = inr e ->
             imported = [mjs; js] /\
             (forall d, files js = inl d -> result = inl d) /\
             (forall e', files js = inr e' -> result = inr missing_config)).
Proof.
  cbn zeta. unfold multi_load_databases, importing. cbn [app].
  repeat split; intros;
    repeat match goal with
           | H : files _ = _ |- _ => rewrite H
           end;
    try reflexivity;
    match goal with
    | |- context [files ?p] => destruct (files p) as [d' | e'']; reflexivity
    end.
Qed.

(** A broken [.mjs] beside a good [.js]: the [.js] is loaded and the error
    of the [.mjs] is lost. *)
Lemma multi_load_databases_witness :
  multi_load_databases (fun p => p) (importing (broken_mjs_beside_js 7)) [] =
  ([".migrator.config.mjs"; ".migrator.config.js"], inl 7).
Proof.
  pose proof (@multi_load_databases_masks_errors
                nat (fun p => p) (broken_mjs_beside_js 7)) as H.
  cbn zeta in H. destruct H as (_ & Hfail).
  destruct (Hfail syntax_error eq_refl) as (Himported & Hloaded & _).
  apply injective_projections; [exact Himported | exact (Hloaded 7 eq_refl)].
Defined.

(** ** What the checks accept *)

Section CheckFacts.

Variables W Ctx Storage : Type.
Variable Umzug_up : UmzugConfig W Ctx Storage -> UpOptions -> Async W unit.
Variable Umzug_create : UmzugCreateConfig -> CreateOptions -> Async W unit.
Variable globAsync : string -> Async W (list string).
Variables path_resolve path_basename : string -> string.
Variable dbs : list (string * DatabaseConfig W Ctx Storage).

Lemma lookup_In key (db : DatabaseConfig W Ctx Storage) :
  lookup dbs key = Some db -> In (key, db) dbs.
Proof.
  induction dbs as [| [k d] rest IH]; cbn [lookup]; [discriminate |].
  destruct (String.eqb_spec k key) as [-> | _].
  - intros [= ->]. left. reflexivity.
  - intros H. right. exact (IH H).
Qed.



(** X4: yargs lets a format through as soon as some database of the
    configuration supports it, the chosen one or another; every format the
    chosen database supports is let through. *)
Theorem format_choices_join_all_databases format :
  (In format (formatOpt_choices dbs) <->
   exists key db, In (key, db) dbs /\ In format (supportedScriptFormats db)) /\
  (forall key db,
      lookup dbs key = Some db ->
      includes (supportedScriptFormats db) format = true ->
      In format (formatOpt_choices dbs)).
Proof.
  assert (Hiff : In format (formatOpt_choices dbs) <->
                 exists key db, In (key, db) dbs /\ In format (supportedScriptFormats db)).
  { unfold formatOpt_choices. rewrite in_flat_map. split.
    - intros ([key db] & Hin & Hformat). exists key, db. split; assumption.
    - intros (key & db & Hin & Hformat). exists (key, db). split; assumption. }
  split; [exact Hiff |].
  intros key db Hdb Hsupported. apply Hiff. exists key, db.
  split; [apply lookup_In; exact Hdb | apply includes_In; exact Hsupported].
Qed.

(** X5: the check of [apply-scripts] accepts exactly the arguments that name
    a configured database, give a script name with [only] and [until] and
    none with the other targets, and resolve to an environment the
    database supports; it never answers false. *)
Theorem apply_check_accepts_exactly opts :
  (apply_check dbs opts = Ok true <->
   exists db,
     lookup dbs (apply_db opts) = Some db /\
     needsSpecificScript (apply_target opts) = truthy (apply_name opts) /\
     includes_opt (supportedEnvironments db)
                  (nullish (apply_env opts) (defaultEnvironment db)) = true) /\
  apply_check dbs opts <> Ok false.
Proof.
  unfold apply_check.
  destruct (lookup dbs (apply_db opts)) as [db |] eqn:Hdb.
  - rewrite (@getEnv_found _ _ _ _ _ _ _ Hdb). unfold with_db. rewrite Hdb.
    destruct (needsSpecificScript (apply_target opts)),
             (truthy (apply_name opts)); cbn [negb andb];
      try destruct (includes_opt (supportedEnvironments db)
                      (nullish (apply_env opts) (defaultEnvironment db))) eqn:Henv;
      cbn [negb]; (split; [split | discriminate]);
      try discriminate;
      try (intros (db' & [= <-] & Hname & Hsupported); congruence);
      try (intros _; exists db; auto).
  - unfold getEnv, with_db. rewrite Hdb.
    destruct (negb (needsSpecificScript (apply_target opts)) && truthy (apply_name opts)),
             (needsSpecificScript (apply_target opts) && negb (truthy (apply_name opts))),
             (apply_env opts), (inherited (apply_db opts));
      (split; [split; [discriminate | intros (db & H & _); discriminate H]
              | discriminate]).
Qed.

(** X6: for a configured database (the positional's choices admit no
    other) the check of [add] accepts exactly the arguments that give an
    environment for a seed and none for a migration, resolve to no
    environment or to one the database supports, and ask for no format or
    for one the database supports. *)
Theorem add_check_accepts_exactly opts db :
  lookup dbs (add_db opts) = Some db ->
  (add_check dbs opts = Ok true <->
   is_seed (add_type opts) = truthy (add_env opts) /\
   (truthy (nullish (add_env opts) (defaultEnvironment db)) = true ->
    includes_opt (supportedEnvironments db)
                 (nullish (add_env opts) (defaultEnvironment db)) = true) /\
   (forall format, add_format opts = Some format ->
                   includes (supportedScriptFormats db) format = true)).
Proof.
  intros Hdb. unfold add_check. rewrite (@getEnv_found _ _ _ _ _ _ _ Hdb).
  unfold with_db. rewrite Hdb.
  destruct (add_type opts), (truthy (add_env opts)) eqn:Hflag;
    cbn [is_seed is_migration negb andb];
    try (split; [discriminate | intros (H & _); discriminate H]).
  all: destruct (truthy (nullish (add_env opts) (defaultEnvironment db))) eqn:Htruthy;
    destruct (includes_opt (supportedEnvironments db)
                (nullish (add_env opts) (defaultEnvironment db))) eqn:Henv;
    cbn [negb andb];
    try (split; [discriminate
                | intros (_ & Hsupported & _);
                  specialize (Hsupported eq_refl); discriminate Hsupported]).
  all: destruct (add_format opts) as [format |];
    [destruct (includes (supportedScriptFormats db) format) eqn:Hformat; cbn [negb] |].
  all: split;
    try discriminate;
    try (intros _; reflexivity);
    try (intros _; repeat split; try reflexivity; try congruence;
         intros f [= <-]; exact Hformat);
    try (intros (_ & _ & Hall);
         specialize (Hall format eq_refl); congruence).
Qed.

End CheckFacts.


(** A migration without flags passes the check: the default environment
    of its database is supported. *)
Lemma add_check_accepts_witness :
  add_check [("db1", described_db unit "scripts" "sql" None)] add_plain_migration =
  Ok true.
Proof.
  apply (proj2 (@add_check_accepts_exactly unit unit unit
                  [("db1", described_db unit "scripts" "sql" None)]
                  add_plain_migration (described_db unit "scripts" "sql" None)
                  eq_refl)).
  split; [reflexivity |]. split; [intros _; reflexivity |].
  intros format H. discriminate H.
Defined.

(** ** Accepted commands *)

Section HandlerFacts.

Variables W Ctx Storage : Type.
Variable Umzug_up : UmzugConfig W Ctx Storage -> UpOptions -> Async W unit.
Variable Umzug_create : UmzugCreateConfig -> CreateOptions -> Async W unit.
Variable globAsync : string -> Async W (list string).
Variables path_resolve path_basename : string -> string.
Variable dbs : list (string * DatabaseConfig W Ctx Storage).

(** X7: a command other than [add] that yargs's validation lets through,
    whose arguments are consistent and whose [--env] the database supports
    is let through by its check, and its handler works with the
    environment of the flag; the database's default is not used, the flag
    being demanded.  [apply-scripts] runs the database's task with it,
    [clean] drops then prepares with it, [drop] and [create] make their
    single call with it. *)
Theorem accepted_command_uses_resolved_environment command db :
  validate dbs command = Ok tt ->
  lookup dbs (command_db command) = Some db ->
  includes_opt (supportedEnvironments db) (command_env command) = true ->
  consistent_arguments command = true ->
  is_add command = false ->
  command_env command <> None /\
  command_line Umzug_up Umzug_create globAsync path_resolve path_basename dbs command =
  match command with
  | Add _ => rejected check_failed
  | Apply opts =>
      apply_to Umzug_up globAsync path_resolve path_basename db
               (apply_env opts) (apply_env opts)
               (apply_target opts) (apply_name opts)
  | Clean opts => clean_database db (arg_env opts)
  | Drop opts =>
      bind (call (dropDbAndDisconnect db (arg_env opts))) (fun _ => resolved tt)
  | Create opts =>
      bind (call (prepareDbAndDisconnect db (arg_env opts))) (fun _ => resolved tt)
  end.
Proof.
  intros Hvalid Hdb Henv Hargs Hadd.
  unfold command_line. rewrite Hvalid.
  destruct command as [opts | opts | opts | opts | opts];
    cbn [command_db command_env consistent_arguments is_add validate] in *;
    try discriminate Hadd;
    unfold run_command, checked, demanded_env in *.
  - destruct (apply_env opts) as [given |] eqn:Hflag; [| discriminate Hvalid].
    split; [discriminate |].
    unfold apply_check, apply_handler, getEnv, with_db. rewrite Hflag, Hdb, Henv.
    destruct (needsSpecificScript (apply_target opts)),
             (truthy (apply_name opts)); try discriminate Hargs; reflexivity.
  - destruct (arg_env opts) as [given |] eqn:Hflag; [| discriminate Hvalid].
    split; [discriminate |].
    unfold environment_check, clean_handler, getEnv, with_db.
    rewrite Hflag, Hdb, Henv. reflexivity.
  - destruct (arg_env opts) as [given |] eqn:Hflag; [| discriminate Hvalid].
    split; [discriminate |].
    unfold environment_check, drop_handler, getEnv, with_db.
    rewrite Hflag, Hdb, Henv. reflexivity.
  - destruct (arg_env opts) as [given |] eqn:Hflag; [| discriminate Hvalid].
    split; [discriminate |].
    unfold environment_check, create_handler, getEnv, with_db.
    rewrite Hflag, Hdb, Henv. reflexivity.
Qed.

End HandlerFacts.

(** [clean --db A --env staging] on a database that supports staging:
    dropped, then prepared. *)
Lemma accepted_command_witness :
  observe (observed_command_line [("A", sample_behaviour)] (Ok tt)
                                 (Clean clean_staging)) [] =
  ([Invoked "A" dropOp; Completed "A" dropOp false;
    Invoked "A" prepareOp; Completed "A" prepareOp true], Ok tt).
Proof.
  unfold observe, observed_command_line.
  rewrite (proj2 (@accepted_command_uses_resolved_environment
                    Log string string
                    (probe_up [("A", sample_behaviour)]) (probe_create (Ok tt))
                    (probe_glob []) (fun p => p) (fun p => p)
                    (probe_dbs [("A", sample_behaviour)])
                    (Clean clean_staging) (probe_db "A" sample_behaviour)
                    eq_refl eq_refl eq_refl eq_refl eq_refl)).
  reflexivity.
Defined.

(** ** Discovering the scripts *)

Lemma starts_with_app (x a b : string) :
  starts_with x a = true -> starts_with x (a ++ b) = true.
Proof.
  revert a. induction x as [| c x IH]; intros a H; [reflexivity |].
  destruct a as [| d a]; [discriminate H |].
  cbn [starts_with append] in *. apply andb_prop in H as [Hc Hx].
  rewrite Hc, (IH a Hx). reflexivity.
Qed.

Lemma contains_app_left (x a b : string) :
  contains x a = true -> contains x (a ++ b) = true.
Proof.
  induction a as [| d a IH]; intros H.
  - cbn [contains] in H. rewrite orb_false_r in H.
    destruct x; [| discriminate H]. destruct (EmptyString ++ b)%string; reflexivity.
  - cbn [contains] in H. apply orb_prop in H as [H | H].
    + pose proof (@starts_with_app x (String d a) b H) as H'.
      cbn [append] in H'. cbn [append contains]. rewrite H'. reflexivity.
    + cbn [append contains]. rewrite (IH H). apply orb_true_r.
Qed.

Lemma contains_join (sep f : string) (l : list string) :
  In f l -> contains f (join sep l) = true.
Proof.
  induction l as [| x rest IH]; [intros [] |].
  intros [-> | Hin].
  - destruct rest as [| y rest]; cbn [join].
    + rewrite <- (contains_here f EmptyString). f_equal.
      clear. induction f as [| c f IHf]; cbn; [reflexivity | rewrite <- IHf; reflexivity].
    + apply contains_here.
  - destruct rest as [| y rest]; [destruct Hin |].
    cbn [join]. do 2 apply contains_later. exact (IH Hin).
Qed.

(** X8: the extensions put in the glob pattern name every format the
    database supports; a single format stands alone, without braces. *)
Theorem supportedExtensions_names_every_format (formats : list string) :
  (forall format, In format formats ->
                  contains format (supportedExtensions formats) = true) /\
  (forall format, formats = [format] -> supportedExtensions formats = format).
Proof.
  split.
  - intros format Hin. unfold supportedExtensions.
    destruct formats as [| x [| y rest]]; [destruct Hin | |].
    + destruct Hin as [-> | []]. cbn.
      exact (@contains_join "," format [format] (or_introl eq_refl)).
    + cbn [List.length Nat.ltb Nat.leb].
      apply contains_later, contains_app_left, contains_join. exact Hin.
  - intros format ->. reflexivity.
Qed.

(** Two formats: both are in the braces. *)
Lemma supportedExtensions_witness :
  contains "js" (supportedExtensions ["sql"; "js"]) = true.
Proof.
  exact (proj1 (supportedExtensions_names_every_format ["sql"; "js"])
               "js" (or_intror (or_introl eq_refl))).
Defined.

Section DiscoverFacts.

Variables W Ctx Storage : Type.
Variable globAsync : string -> Async W (list string).
Variables path_resolve path_basename : string -> string.

Lemma call_all_length (A : Type) (calls : list (Sync W A)) :
  forall w w' results,
    call_all calls w = (w', Ok results) -> List.length results = List.length calls.
Proof.
  induction calls as [| c rest IH]; intros w w' results; cbn [call_all].
  - intros [= _ <-]. reflexivity.
  - destruct (c w) as [w1 [a | e]]; [| discriminate].
    destruct (call_all rest w1) as [w2 [others | e]] eqn:Hrest; [| discriminate].
    intros [= _ <-]. cbn [List.length]. f_equal. exact (IH _ _ _ Hrest).
Qed.

(** The runnable made of a resolved script and the path it was asked
    for. *)
Let spread (asked : string * RunnableMigration W Ctx) : RunnableMigration W Ctx :=
  {| name := name (snd asked);
     path := match path (snd asked) with
             | Absent => Value (path_resolve (fst asked))
             | own => own
             end;
     up := up (snd asked);
     down := down (snd asked) |}.

Lemma call_all_resolve_path (db : DatabaseConfig W Ctx Storage) context paths :
  forall w,
    call_all (map (resolve_path path_resolve path_basename db context) paths) w =
    match call_all (map (fun unresolved =>
                           resolveScript db
                             {| mp_name := path_basename (path_resolve unresolved);
                                mp_path := Some (path_resolve unresolved);
                                mp_context := context |}) paths) w with
    | (w', Throw e) => (w', Throw e)
    | (w', Ok scripts) => (w', Ok (map spread (combine paths scripts)))
    end.
Proof.
  induction paths as [| unresolved rest IH]; intros w; cbn [map call_all];
    [reflexivity |].
  unfold resolve_path at 1.
  destruct (resolveScript db _ w) as [w1 [script | e]]; [| reflexivity].
  rewrite IH.
  match goal with
  | |- context [call_all ?calls w1] => destruct (call_all calls w1) as [w2 [scripts | e]]
  end; reflexivity.
Qed.

(** X9: the [migrations] callback given to umzug.  When the listing of the
    scripts directory fails, the callback fails with the same error and
    [resolveScript] is not called.  Otherwise [resolveScript] is called for
    each listed path that [shouldRun] selects for the environment, in the
    order of the listing, with the resolved path and its base name; when
    one of the calls throws, the callback fails with what it threw and the
    later paths are not resolved.  When none throws, the callback yields
    one runnable per selected path, in order, with the name, [up] and
    [down] of the resolved script; its [path] is the script's own when the
    script has one, be it [undefined], and the resolved file path when the
    script has none. *)
Theorem discover_resolves_the_selected_paths (db : DatabaseConfig W Ctx Storage)
    env context sch w :
  let ask := fun unresolved =>
    resolveScript db {| mp_name := path_basename (path_resolve unresolved);
                        mp_path := Some (path_resolve unresolved);
                        mp_context := context |} in
  match exec (globAsync (scriptsDirectory db ++ "/*." ++
                         supportedExtensions (supportedScriptFormats db))) sch w with
  | (w1, Throw e, sch1) =>
      exec (discover globAsync path_resolve path_basename db env context) sch w =
      (w1, Throw e, tl sch1)
  | (w1, Ok listed, sch1) =>
      let chosen := filter (shouldRun env (supportedScriptFormats db)) listed in
      match call_all (map ask chosen) w1 with
      | (w2, Throw e) =>
          exec (discover globAsync path_resolve path_basename db env context) sch w =
          (w2, Throw e, tl sch1)
      | (w2, Ok scripts) =>
          exists found,
            exec (discover globAsync path_resolve path_basename db env context) sch w =
            (w2, Ok found, tl sch1) /\
            List.length found = List.length chosen /\
            Forall2 (fun asked m =>
                       name m = name (snd asked) /\
                       up m = up (snd asked) /\
                       down m = down (snd asked) /\
                       path m = match path (snd asked) with
                                | Absent => Value (path_resolve (fst asked))
                                | own => own
                                end)
                    (combine chosen scripts)
                    found
      end
  end.
Proof.
  cbn zeta. unfold discover. rewrite exec_bind.
  destruct (exec (globAsync _) sch w) as [[w1 [listed | e]] sch1]; [| reflexivity].
  unfold exec, finish. rewrite call_all_resolve_path.
  match goal with
  | |- context [call_all ?calls w1] =>
      destruct (call_all calls w1) as [w2 [scripts | e]] eqn:Hcalls
  end; [| reflexivity].
  eexists. split; [reflexivity |].
  apply call_all_length in Hcalls. rewrite length_map in Hcalls.
  split.
  - rewrite length_map, length_combine, Hcalls. apply Nat.min_id.
  - induction (combine (filter (shouldRun env (supportedScriptFormats db)) listed)
                       scripts) as [| asked rest IH]; cbn [map]; constructor;
      [| exact IH].
    repeat split.
Qed.

End DiscoverFacts.

(** ** The apply handler when the engine does not fail *)

(** X10: when the engine call succeeds, the teardown still decides the
    command: [destroyContext] is called once, after the engine completed,
    [destroyStorage] after it when the database defines one and
    [destroyContext] succeeded, and the command fails with the error of the
    teardown call that failed, although every script was applied; it
    succeeds when the teardown does. *)
Theorem apply_result_is_the_teardowns_after_success config opts b sch :
  behaviour_of config (apply_db opts) = Some b ->
  In (apply_target opts) targets ->
  succeeds (on_createContext b) && succeeds (on_createStorage b) = true ->
  on_engine_up b = Ok tt ->
  let log := fst (observe (observed_apply config opts) sch) in
  let res := snd (observe (observed_apply config opts) sch) in
  calls engineUpOp log = 1 /\
  calls destroyContextOp log = 1 /\
  (exists before after,
      log = before ++ [Completed (apply_db opts) engineUpOp true;
                       Invoked (apply_db opts) destroyContextOp] ++ after) /\
  calls destroyStorageOp log = match on_destroyContext b, on_destroyStorage b with
                               | Ok _, Some _ => 1
                               | _, _ => 0
                               end /\
  res = match on_destroyContext b with
        | Throw e => Throw e
        | Ok _ =>
            match on_destroyStorage b with
            | Some (Throw e) => Throw e
            | _ => Ok tt
            end
        end.
Proof.
  intros Hb Htarget Hok He log res. subst log res. unfold observe.
  rewrite (observed_apply_found _ _ Hb).
  destruct (@exec_apply_to_acquired config (apply_db opts) b
              (nullish (apply_env opts) (defaultEnvironment (probe_db (apply_db opts) b)))
              (nullish (apply_env opts) (defaultEnvironment (probe_db (apply_db opts) b)))
              (apply_target opts) (apply_name opts) sch [] Hb Htarget Hok)
    as (l & sch' & Hrun & Hl & _).
  cbn [defaultEnvironment probe_db] in Hrun. rewrite Hrun.
  cbn [fst snd app]. rewrite He. cbn [is_ok].
  assert (H0 : forall op, op <> createContextOp -> op <> createStorageOp ->
                          calls op l = 0)
    by (intros; eapply acquisition_calls; eauto).
  unfold teardown_log, teardown_result.
  repeat rewrite calls_app. rewrite !H0 by discriminate.
  split; [| split; [| split; [| split]]].
  - destruct (on_destroyContext b) as [[] | e1], (on_destroyStorage b) as [[[] | e2] |];
      reflexivity.
  - destruct (on_destroyContext b) as [[] | e1], (on_destroyStorage b) as [[[] | e2] |];
      reflexivity.
  - exists (l ++ [Invoked (apply_db opts) engineUpOp]). eexists.
    rewrite <- app_assoc. reflexivity.
  - destruct (on_destroyContext b) as [[] | e1], (on_destroyStorage b) as [[[] | e2] |];
      reflexivity.
  - destruct (on_destroyContext b) as [[] | e1], (on_destroyStorage b) as [[[] | e2] |];
      reflexivity.
Qed.

(** Every script applied, the storage cannot be closed: the command fails. *)
Lemma apply_result_witness :
  snd (observe (observed_apply [("A", failing_storage_cleanup)]
                               (apply_remaining "A" "staging")) [0; 0]) =
  Throw (Error "storage cleanup").
Proof.
  exact (proj2 (proj2 (proj2 (proj2
           (@apply_result_is_the_teardowns_after_success
              [("A", failing_storage_cleanup)] (apply_remaining "A" "staging")
              failing_storage_cleanup [0; 0]
              eq_refl (or_introl eq_refl) eq_refl eq_refl))))).
Defined.

Lemma engine_call_no_case (W Ctx Storage : Type)
    (Umzug_up : UmzugConfig W Ctx Storage -> UpOptions -> Async W unit)
    migrator target name :
  ~ In target targets ->
  engine_call Umzug_up migrator target name = resolved tt.
Proof.
  intros Hout. unfold engine_call, targets in *. cbn [In] in Hout.
  destruct (String.eqb_spec target "remaining"); [exfalso; auto |].
  destruct (String.eqb_spec target "next"); [exfalso; auto |].
  destruct (String.eqb_spec target "only"); [exfalso; auto 6 |].
  destruct (String.eqb_spec target "until"); [exfalso; auto 6 |].
  reflexivity.
Qed.

(** X11: the [switch] of the apply handler has no default case.  With a
    target outside the four choices the engine is not called at all, yet
    context and storage are created and torn down, and the command settles
    as the teardown does. *)
Theorem apply_with_unknown_target_only_tears_down config opts b sch :
  behaviour_of config (apply_db opts) = Some b ->
  ~ In (apply_target opts) targets ->
  succeeds (on_createContext b) && succeeds (on_createStorage b) = true ->
  let log := fst (observe (observed_apply config opts) sch) in
  let res := snd (observe (observed_apply config opts) sch) in
  calls engineUpOp log = 0 /\
  calls createContextOp log = 1 /\
  calls destroyContextOp log = 1 /\
  res = match on_destroyContext b with
        | Throw e => Throw e
        | Ok _ =>
            match on_destroyStorage b with
            | Some (Throw e) => Throw e
            | _ => Ok tt
            end
        end.
Proof.
  intros Hb Htarget Hok log res. subst log res. unfold observe.
  rewrite (observed_apply_found _ _ Hb), exec_apply_to.
  cbn [createContext createStorage probe_db].
  destruct (exec_acquire (apply_db opts) (on_createContext b) (on_createStorage b)
              sch []) as (l & sch1 & r & -> & Hl & Hone & Hgood & _).
  rewrite (Hgood Hok). cbn [fst snd].
  rewrite engine_call_no_case by exact Htarget. rewrite exec_resolved.
  destruct (exec_teardown (apply_db opts) b (tl (tl sch1)) ([] ++ l)) as [sch2 ->].
  cbn [app].
  assert (H0 : forall op, op <> createContextOp -> op <> createStorageOp ->
                          calls op l = 0)
    by (intros; eapply acquisition_calls; eauto).
  unfold teardown_log, teardown_result.
  pose proof (H0 engineUpOp ltac:(discriminate) ltac:(discriminate)) as Hup.
  pose proof (H0 destroyContextOp ltac:(discriminate) ltac:(discriminate)) as Hdc.
  destruct (on_destroyContext b) as [[] | e1], (on_destroyStorage b) as [[[] | e2] |];
    cbn [fst snd]; rewrite !calls_app, Hup, Hdc, Hone;
    repeat split; reflexivity.
Qed.

(** A target that is none of the four: nothing is applied and the command
    succeeds. *)
Lemma apply_with_unknown_target_witness :
  calls engineUpOp
    (fst (observe (observed_apply [("A", sample_behaviour)] (apply_sideways "A" "staging"))
                  [])) = 0 /\
  snd (observe (observed_apply [("A", sample_behaviour)] (apply_sideways "A" "staging"))
               []) = Ok tt.
Proof.
  assert (Hout : ~ In "sideways" targets)
    by (cbn; intuition discriminate).
  pose proof (@apply_with_unknown_target_only_tears_down
                [("A", sample_behaviour)] (apply_sideways "A" "staging")
                sample_behaviour [] eq_refl Hout eq_refl) as H.
  cbn zeta in H. destruct H as (Hengine & _ & _ & Hres).
  split; [exact Hengine | exact Hres].
Defined.

(** ** drop, create and add *)

(** X12: [drop] calls [dropDbAndDisconnect] and nothing else, [create]
    calls [prepareDbAndDisconnect] and nothing else, and each settles as
    its call does: a failure is not swallowed and nothing is undone. *)
Theorem drop_and_create_make_one_call config opts b sch :
  behaviour_of config (arg_db opts) = Some b ->
  observe (observed_drop config opts) sch =
  ([Invoked (arg_db opts) dropOp; Completed (arg_db opts) dropOp (is_ok (on_drop b))],
   on_drop b) /\
  observe (observed_create config opts) sch =
  ([Invoked (arg_db opts) prepareOp;
    Completed (arg_db opts) prepareOp (is_ok (on_prepare b))],
   on_prepare b).
Proof.
  intros Hb.
  assert (Hdb : lookup (probe_dbs config) (arg_db opts) =
                Some (probe_db (arg_db opts) b))
    by (rewrite lookup_probe_dbs, Hb; reflexivity).
  unfold observe, observed_drop, observed_create, drop_handler, create_handler.
  rewrite Hdb, (@getEnv_found _ _ _ _ _ _ _ Hdb).
  rewrite !exec_bind. cbn [dropDbAndDisconnect prepareDbAndDisconnect probe_db].
  rewrite !exec_call_returning, !exec_probe.
  destruct (on_drop b) as [[] | e1], (on_prepare b) as [[] | e2]; split; reflexivity.
Qed.

(** Dropping a database that does not exist fails, unlike [clean]. *)
Lemma drop_and_create_witness :
  observe (observed_drop [("A", sample_behaviour)] clean_staging) [] =
  ([Invoked "A" dropOp; Completed "A" dropOp false],
   Throw (Error "database does not exist")).
Proof.
  exact (proj1 (@drop_and_create_make_one_call
                  [("A", sample_behaviour)] clean_staging sample_behaviour []
                  eq_refl)).
Defined.

(** X13: [add] for a configured database, with arguments its check
    accepts, calls the engine's [create] once and no callback of the
    database: no context, no storage, no connection; the command settles as
    [create] does. *)
Theorem add_only_calls_create config on_create opts b sch :
  behaviour_of config (add_db opts) = Some b ->
  add_check (probe_dbs config) opts = Ok true ->
  observe (observed_command config on_create (Add opts)) sch =
  ([Invoked "umzug" engineCreateOp;
    Completed "umzug" engineCreateOp (is_ok on_create)],
   on_create).
Proof.
  intros Hb Hcheck. unfold observe, observed_command, run_command, checked.
  rewrite Hcheck.
  assert (Hdb : lookup (probe_dbs config) (add_db opts) =
                Some (probe_db (add_db opts) b))
    by (rewrite lookup_probe_dbs, Hb; reflexivity).
  unfold add_handler. rewrite Hdb, (@getEnv_found _ _ _ _ _ _ _ Hdb).
  rewrite exec_bind. unfold probe_create. rewrite exec_probe.
  destruct on_create as [[] | e]; reflexivity.
Qed.

(** [add db1 seed myseed --env staging --format js]: one call of [create]. *)
Lemma add_only_calls_create_witness :
  observe (observed_command [("db1", sample_behaviour)] (Ok tt)
                            (Add add_seed_for_staging)) [] =
  ([Invoked "umzug" engineCreateOp; Completed "umzug" engineCreateOp true], Ok tt).
Proof.
  exact (@add_only_calls_create [("db1", sample_behaviour)] (Ok tt)
                                add_seed_for_staging sample_behaviour []
                                eq_refl eq_refl).
Defined.

(** X14: what [add] asks of the engine: one file in the database's scripts
    directory, named by [nameScript] from the type, the resolved
    environment (the flag, else the database's default, for a migration as
    well) and the name, followed by the extension umzug is told to allow:
    the format flag, else the database's default format; with the
    [TIMESTAMP] prefix and without verification; its content is the
    database's template for the path, or empty when it has none. *)
Theorem add_names_the_file_with_its_format (Ctx Storage : Type)
    (dbs : list (string * DatabaseConfig (list (UmzugCreateConfig * CreateOptions))
                                         Ctx Storage))
    opts db sch :
  lookup dbs (add_db opts) = Some db ->
  exists migrator options sch',
    exec (add_handler recording_create dbs opts) sch [] =
    ([(migrator, options)], Ok tt, sch') /\
    create_folder migrator = scriptsDirectory db /\
    (forall filePath,
        create_template migrator filePath =
        [(filePath, match getTemplate db with
                    | Some template => template filePath
                    | None => EmptyString
                    end)]) /\
    co_allowExtension options =
    ("." ++ match add_format opts with
            | Some format => format
            | None => defaultScriptFormat db
            end)%string /\
    co_name options =
    (nameScript (add_type opts)
                (match add_env opts with
                 | Some given => Some given
                 | None => defaultEnvironment db
                 end)
                (add_name opts) ++ co_allowExtension options)%string /\
    co_prefix options = "TIMESTAMP" /\
    co_skipVerify options = true.
Proof.
  intros Hdb. unfold add_handler. rewrite Hdb, (@getEnv_found _ _ _ _ _ _ _ Hdb).
  rewrite exec_bind. unfold recording_create at 1. unfold exec at 1. cbn [run app].
  do 3 eexists. split; [reflexivity |].
  cbn [create_folder create_template co_allowExtension co_name co_prefix co_skipVerify].
  repeat split. destruct (add_env opts); reflexivity.
Qed.

(** A migration added without flags is named for the database's default
    environment and gets its default format. *)
Lemma add_names_the_file_witness :
  exists migrator options sch',
    exec (add_handler recording_create
                      [("db1", described_db _ "scripts" "sql" None)]
                      add_plain_migration) [] [] =
    ([(migrator, options)], Ok tt, sch') /\
    co_allowExtension options = ".sql" /\
    co_name options =
    (nameScript migration (Some "staging") "add-users" ++ ".sql")%string.
Proof.
  destruct (@add_names_the_file_with_its_format unit unit
              [("db1", described_db _ "scripts" "sql" None)]
              add_plain_migration (described_db _ "scripts" "sql" None) []
              eq_refl)
    as (migrator & options & sch' & Hrun & _ & _ & Hext & Hname & _).
  exists migrator, options, sch'.
  split; [exact Hrun |]. split; [exact Hext |]. rewrite Hname, Hext. reflexivity.
Defined.

(** ** The multi-database revision: how far apply goes *)

Lemma behaviour_of_In config entry :
  NoDup (map fst config) -> In entry config ->
  behaviour_of config (fst entry) = Some (snd entry).
Proof.
  induction config as [| [who b] rest IH]; cbn [map fst behaviour_of];
    intros Hnodup Hin; [destruct Hin |].
  inversion Hnodup as [| ? ? Hfresh Hrest]; subst.
  destruct Hin as [<- | Hin]; cbn [fst snd].
  - rewrite String.eqb_refl. reflexivity.
  - destruct (String.eqb_spec who (fst entry)) as [-> | _].
    + exfalso. apply Hfresh. apply in_map. exact Hin.
    + apply IH; assumption.
Qed.

Lemma continue_rejected (W : Type) (tasks : list (unit -> Async W unit)) e w :
  forall sch, exists sch', continue tasks (Throw e) w sch = (w, Throw e, sch').
Proof.
  induction tasks as [| task tasks IH]; intros sch; cbn [continue].
  - exists sch. reflexivity.
  - apply IH.
Qed.

(** One database's run on probes fails exactly when one of its calls
    does. *)
Lemma exec_apply_to_outcome config who b created_for env target name sch log :
  behaviour_of config who = Some b ->
  In target targets ->
  exists l r sch',
    exec (apply_to (probe_up config) (probe_glob []) (fun p => p) (fun p => p)
                   (probe_db who b) created_for env target name) sch log =
    (log ++ l, r, sch') /\
    callers createContextOp l = [who] /\
    is_ok r = applies_cleanly b.
Proof.
  intros Hb Htarget.
  destruct (@exec_apply_to_block config who b created_for env target name sch log)
    as (l & r & sch' & Hrun & _ & Hone).
  exists l, r, sch'. split; [exact Hrun |]. split; [exact Hone |].
  unfold applies_cleanly.
  destruct (succeeds (on_createContext b) && succeeds (on_createStorage b)) eqn:Hok.
  - destruct (@exec_apply_to_acquired config who b created_for env target name sch log
                Hb Htarget Hok) as (l' & sch2 & Hrun' & _).
    rewrite Hrun in Hrun'. injection Hrun' as _ -> _.
    destruct (teardown_result b) as [[] | e], (on_engine_up b) as [[] | e'];
      reflexivity.
  - rewrite exec_apply_to in Hrun. cbn [createContext createStorage probe_db] in Hrun.
    destruct (exec_acquire who (on_createContext b) (on_createStorage b) sch log)
      as (l' & sch1 & r' & Hacq & _ & _ & _ & Hbad).
    rewrite Hacq in Hrun. destruct (Hbad Hok) as (e & -> & _).
    injection Hrun as _ <- _. reflexivity.
Qed.

Lemma continue_through_first_failure config env target name entries :
  In target targets ->
  Forall (fun entry => behaviour_of config (fst entry) = Some (snd entry)) entries ->
  forall log sch,
  exists l r sch',
    continue (map (fun entry => fun _ : unit =>
                     apply_to (probe_up config) (probe_glob []) (fun p => p) (fun p => p)
                              (snd entry) None env target name)
                  (probe_dbs entries)) (Ok tt) log sch =
    (log ++ l, r, sch') /\
    callers createContextOp l = map fst (through_first_failure entries) /\
    is_ok r = forallb (fun entry => applies_cleanly (snd entry)) entries.
Proof.
  intros Htarget Hall.
  induction Hall as [| [who b] rest Hb _ IH]; intros log sch;
    cbn [map probe_dbs continue through_first_failure forallb fst snd].
  - exists [], (Ok tt), sch. rewrite app_nil_r. repeat split.
  - cbn [fst snd] in Hb.
    destruct (@exec_apply_to_outcome config who b None env target name (tl sch) log
                Hb Htarget) as (l & r & sch1 & -> & Hone & Hr).
    rewrite <- Hr. destruct r as [[] | e]; cbn [is_ok andb].
    + destruct (IH (log ++ l) sch1) as (l2 & r2 & sch2 & Hrun & Hnames & Hr2).
      unfold probe_dbs in Hrun. rewrite Hrun.
      exists (l ++ l2), r2, sch2. rewrite <- app_assoc.
      split; [reflexivity |]. rewrite callers_app, Hone, Hnames.
      split; [reflexivity | exact Hr2].
    + match goal with
      | |- context [continue ?tasks (Throw e) ?w ?s] =>
          destruct (@continue_rejected Log tasks e w s) as [s' ->]
      end.
      exists l, (Throw e), s'. split; [reflexivity |]. rewrite Hone.
      split; reflexivity.
Qed.

(** X15: the multi-database [apply-scripts] stops at the first database
    whose run fails: the databases started are the selected ones, in
    configuration order, up to and including the first one for which a
    factory, the engine or the teardown fails; the later ones are not
    started, and the command succeeds exactly when no selected database
    fails. *)
Theorem multi_apply_stops_at_first_failure config target name env optDbs sch :
  NoDup (map fst config) ->
  In target targets ->
  let chosen := filter (fun entry => includes (flags_of optDbs) (fst entry)) config in
  callers createContextOp
          (fst (observe (observed_multi_apply config target name env optDbs) sch)) =
  map fst (through_first_failure chosen) /\
  is_ok (snd (observe (observed_multi_apply config target name env optDbs) sch)) =
  forallb (fun entry => applies_cleanly (snd entry)) chosen.
Proof.
  intros Hnodup Htarget chosen.
  unfold observe, observed_multi_apply. rewrite exec_multi_apply, selected_probe_dbs.
  fold chosen.
  assert (Hall : Forall (fun entry => behaviour_of config (fst entry) = Some (snd entry))
                        chosen).
  { apply Forall_forall. intros entry Hin. apply behaviour_of_In; [exact Hnodup |].
    apply filter_In in Hin. apply Hin. }
  destruct (@continue_through_first_failure config env target name chosen
              Htarget Hall [] sch) as (l & r & sch' & -> & Hnames & Hr).
  cbn [fst snd app]. split; assumption.
Qed.

(** The engine fails for B: C is never started and the command fails. *)
Lemma multi_apply_stops_witness :
  callers createContextOp
          (fst (observe (observed_multi_apply three_databases "remaining" None
                           (Some "staging") (Some ["C"; "B"; "A"])) [])) =
  ["A"; "B"] /\
  is_ok (snd (observe (observed_multi_apply three_databases "remaining" None
                         (Some "staging") (Some ["C"; "B"; "A"])) [])) = false.
Proof.
  assert (Hnodup : NoDup (map fst three_databases)).
  { repeat constructor; cbn; intuition discriminate. }
  exact (@multi_apply_stops_at_first_failure
           three_databases "remaining" None (Some "staging") (Some ["C"; "B"; "A"]) []
           Hnodup (or_introl eq_refl)).
Defined.

(** ** Promise.all over the selected databases *)

Section Settling.

Variable W : Type.

Lemma run_settles_with (A : Type) (Q : outcome A -> Prop) (p : Promise W A) :
  settles_with Q p -> forall sch w, Q (snd (fst (run p sch w))).
Proof.
  induction 1 as [r Hr | k _ IH]; intros sch w; cbn [run fst snd]; [exact Hr |].
  specialize (IH (hd 0 sch) w (tl sch)).
  destruct (k (hd 0 sch) w) as [w' p']. exact (IH w').
Qed.

Lemma settles_with_impl (A : Type) (Q Q' : outcome A -> Prop) (p : Promise W A) :
  (forall r, Q r -> Q' r) -> settles_with Q p -> settles_with Q' p.
Proof.
  intros Himpl. induction 1 as [r Hr | k _ IH].
  - apply settles_now, Himpl, Hr.
  - apply settles_later. exact IH.
Qed.

(** [Promise.all] of two promises is fulfilled when both are and rejected
    when one of them is, whatever the order in which they progress. *)
Lemma join2_settles (A B : Type) (x y : bool) (pa : Promise W A) (pb : Promise W B) :
  settles_with (fun r => is_ok r = x) pa ->
  settles_with (fun r => is_ok r = y) pb ->
  settles_with (fun r => is_ok r = x && y) (join2 pa pb).
Proof.
  intros Ha. revert pb.
  induction Ha as [ra Hra | ka Hka IHa]; intros pb Hb.
  - induction Hb as [rb Hrb | kb _ IHb].
    + destruct ra, rb; cbn in *; subst; apply settles_now; reflexivity.
    + destruct ra as [a | e]; cbn [join2].
      * apply settles_later. intros c w. specialize (IHb c w).
        destruct (kb c w) as [w' pb']. exact IHb.
      * apply settles_now. cbn in *. subst. reflexivity.
  - induction Hb as [rb Hrb | kb Hkb IHb].
    + destruct rb as [b | e]; cbn [join2].
      * apply settles_later. intros c w.
        specialize (IHa c w (Settled (Ok b)) (@settles_now _ _ _ _ Hrb)).
        destruct (ka c w) as [w' pa']. exact IHa.
      * apply settles_now. cbn in *. subst. symmetry. apply andb_false_r.
    + cbn [join2]. apply settles_later. intros c w. destruct (Nat.even c).
      * specialize (IHa (Nat.div2 c) w (Pending kb) (@settles_later _ _ _ kb Hkb)).
        destruct (ka (Nat.div2 c) w) as [w' pa']. exact IHa.
      * specialize (IHb (Nat.div2 c) w).
        destruct (kb (Nat.div2 c) w) as [w' pb']. exact IHb.
Qed.

Lemma pmap_settles (A B : Type) (f : A -> B) (x : bool) (p : Promise W A) :
  settles_with (fun r => is_ok r = x) p ->
  settles_with (fun r => is_ok r = x) (pmap f p).
Proof.
  induction 1 as [r Hr | k _ IH]; cbn [pmap].
  - destruct r; apply settles_now; exact Hr.
  - apply settles_later. intros c w. specialize (IH c w).
    destruct (k c w) as [w' p']. exact IH.
Qed.

(** [await p] followed by nothing settles as [p] does. *)
Lemma then_settles (A : Type) (x : bool) (p : Promise W A) :
  settles_with (fun r => is_ok r = x) p ->
  settles_with (fun r => is_ok r = x) (then_ p (fun _ => resolved tt)).
Proof.
  unfold then_. induction 1 as [r Hr | k _ IH]; cbn [on_settle]; apply settles_later.
  - intros _ w. destruct r; apply settles_now; exact Hr.
  - intros c w. specialize (IH c w). destruct (k c w) as [w' p']. exact IH.
Qed.

End Settling.

(** *** What each database's task adds to the log *)

Section Tracking.

Variable keep : Event -> bool.


Lemma follows_settles (A : Type) (p : Promise Log A) :
  forall script r, follows keep p script r -> settles_with (fun r' => r' = r) p.
Proof.
  induction p as [r' | k IH] using Promise_induction; intros script r; cbn [follows].
  - intros [_ ->]. apply settles_now. reflexivity.
  - intros Hk. apply settles_later. intros c log.
    destruct (Hk c log) as (chunk & rest & _ & _ & Hrest).
    exact (IH c log rest r Hrest).
Qed.







End Tracking.

Section Emitting.

Variable keep : Event -> bool.

Lemma on_settle_follows (A B : Type) (p : Promise Log A)
    (f : outcome A -> Async Log B) s2 r1 r2 :
  emits keep (f r1) s2 r2 ->
  forall s1, follows keep p s1 r1 -> follows keep (on_settle p f) (s1 ++ s2) r2.
Proof.
  intros Hf. induction p as [r | k IH] using Promise_induction; intros s1;
    cbn [follows on_settle].
  - intros [-> ->] c log. exact (Hf log).
  - intros Hk c log. destruct (Hk c log) as (chunk & rest & Hlog & Hscript & Hrest).
    specialize (IH c log rest Hrest).
    destruct (k c log) as [log' p']. cbn [fst snd] in *.
    exists chunk, (rest ++ s2). split; [exact Hlog |].
    split; [rewrite Hscript, app_assoc; reflexivity | exact IH].
Qed.

Lemma emits_resolved (A : Type) (a : A) : emits keep (resolved a) [] (Ok a).
Proof.
  intros log. exists [], []. cbn. rewrite app_nil_r. repeat split.
Qed.

Lemma emits_rejected (A : Type) e : emits keep (@rejected Log A e) [] (Throw e).
Proof.
  intros log. exists [], []. cbn. rewrite app_nil_r. repeat split.
Qed.

Lemma emits_probe (A : Type) who op (r : outcome A) :
  emits keep (probe who op r)
        (filter keep [Invoked who op; Completed who op (is_ok r)]) r.
Proof.
  intros log. exists [Invoked who op], (filter keep [Completed who op (is_ok r)]).
  split; [reflexivity |]. split.
  - change [Invoked who op; Completed who op (is_ok r)]
      with ([Invoked who op] ++ [Completed who op (is_ok r)]).
    apply filter_app.
  - cbn [probe snd follows]. intros c log'.
    exists [Completed who op (is_ok r)], []. rewrite app_nil_r. repeat split.
Qed.

Lemma emits_bind (A B : Type) (m : Async Log A) (f : A -> Async Log B) a s1 s2 r :
  emits keep m s1 (Ok a) -> emits keep (f a) s2 r ->
  emits keep (bind m f) (s1 ++ s2) r.
Proof.
  intros Hm Hf log. destruct (Hm log) as (chunk & rest & Hlog & Hscript & Hrest).
  unfold bind, then_. destruct (m log) as [log' p]. cbn [fst snd] in *.
  exists chunk, (rest ++ s2). split; [exact Hlog |].
  split; [rewrite Hscript, app_assoc; reflexivity |].
  exact (@on_settle_follows _ _ p _ s2 (Ok a) r Hf rest Hrest).
Qed.

Lemma emits_bind_throw (A B : Type) (m : Async Log A) (f : A -> Async Log B) e s :
  emits keep m s (Throw e) -> emits keep (bind m f) s (Throw e).
Proof.
  intros Hm log. destruct (Hm log) as (chunk & rest & Hlog & Hscript & Hrest).
  unfold bind, then_. destruct (m log) as [log' p]. cbn [fst snd] in *.
  exists chunk, rest. split; [exact Hlog |]. split; [exact Hscript |].
  rewrite <- (app_nil_r rest).
  exact (@on_settle_follows _ _ p _ [] (Throw e) (Throw e)
           (@emits_rejected _ e) rest Hrest).
Qed.

Lemma emits_call_returning (A : Type) (m : Async Log A) s r :
  emits keep m s r -> emits keep (call (returning m)) s r.
Proof.
  intros Hm log. specialize (Hm log). unfold call, returning.
  destruct (m log) as [log' p]. exact Hm.
Qed.

(** The task of [clean] for one database, on probes. *)
Lemma emits_clean thrown who b env :
  emits keep (clean_database (probe_db_dropping thrown who b) env)
        (filter keep (clean_script thrown who b)) (clean_result thrown b).
Proof.
  unfold clean_database, clean_script, clean_result.
  cbn [dropDbAndDisconnect prepareDbAndDisconnect probe_db_dropping probe_db].
  assert (Hprepare :
            emits keep (bind (call (returning (probe who prepareOp (on_prepare b))))
                             (fun _ => resolved tt))
                  (filter keep [Invoked who prepareOp;
                                Completed who prepareOp (is_ok (on_prepare b))])
                  (on_prepare b)).
  { pose proof (emits_call_returning (@emits_probe unit who prepareOp (on_prepare b)))
      as Hprobe.
    destruct (on_prepare b) as [[] | e].
    - rewrite <- (app_nil_r (filter keep _)).
      exact (emits_bind (fun _ => resolved tt) Hprobe (emits_resolved tt)).
    - exact (emits_bind_throw (fun _ => resolved tt) Hprobe). }
  assert (Hcaught : forall ok r,
             emits keep
               (fun w : Log =>
                  (w ++ [Invoked who dropOp],
                   catch_ (Pending (fun _ log' =>
                                      (log' ++ [Completed who dropOp ok], Settled r)))
                          (fun _ => resolved tt)))
               (filter keep [Invoked who dropOp; Completed who dropOp ok]) (Ok tt)).
  { intros ok r log.
    exists [Invoked who dropOp], (filter keep [Completed who dropOp ok]).
    split; [reflexivity |]. split.
    - change [Invoked who dropOp; Completed who dropOp ok]
        with ([Invoked who dropOp] ++ [Completed who dropOp ok]).
      apply filter_app.
    - cbn [snd]. unfold catch_. rewrite <- (app_nil_r (filter keep _)).
      apply (@on_settle_follows _ _ _ _ [] r (Ok tt)).
      + destruct r as [[] | e]; apply emits_resolved.
      + cbn [follows]. intros c log'. exists [Completed who dropOp ok], [].
        rewrite app_nil_r. repeat split. }
  unfold drop_behaviour.
  destruct (on_drop b) as [[] | e]; [| destruct thrown]; cbn [probe_call is_ok].
  - change [Invoked who dropOp; Completed who dropOp true;
            Invoked who prepareOp; Completed who prepareOp (is_ok (on_prepare b))]
      with ([Invoked who dropOp; Completed who dropOp true] ++
            [Invoked who prepareOp; Completed who prepareOp (is_ok (on_prepare b))]).
    rewrite filter_app.
    exact (emits_bind _ (Hcaught true (Ok tt)) Hprepare).
  - apply emits_bind_throw. intros log.
    exists [Invoked who dropOp; Completed who dropOp false], [].
    rewrite app_nil_r. repeat split.
  - change [Invoked who dropOp; Completed who dropOp false;
            Invoked who prepareOp; Completed who prepareOp (is_ok (on_prepare b))]
      with ([Invoked who dropOp; Completed who dropOp false] ++
            [Invoked who prepareOp; Completed who prepareOp (is_ok (on_prepare b))]).
    rewrite filter_app.
    exact (emits_bind _ (Hcaught false (Throw e)) Hprepare).
Qed.




End Emitting.

Lemma selected_probe_dbs_dropping thrown config flags :
  selected (probe_dbs_dropping thrown config) flags =
  probe_dbs_dropping thrown (filter (fun entry => includes flags (fst entry)) config).
Proof.
  unfold selected, probe_dbs_dropping.
  induction config as [| [who b] rest IH]; cbn [map filter fst]; [reflexivity |].
  destruct (includes flags who); cbn [map fst snd]; rewrite IH; reflexivity.
Qed.







(** *** How the commands built on Promise.all settle *)

Lemma emits_settles (A : Type) keep (m : Async Log A) script r log :
  emits keep m script r -> settles_with (fun r' => r' = r) (snd (m log)).
Proof.
  intros Hm. destruct (Hm log) as (chunk & rest & _ & _ & Hrest).
  exact (follows_settles keep _ _ _ Hrest).
Qed.

Lemma start_all_settle (W X : Type) (f : X -> Async W unit) (good : X -> bool)
    (xs : list X) :
  Forall (fun x => forall w, settles_with (fun r => is_ok r = good x) (snd (f x w))) xs ->
  forall w,
    settles_with (fun r => is_ok r = forallb good xs)
                 (all_list (snd (start_all (map f xs) w))).
Proof.
  induction 1 as [| x xs Hx _ IH]; intros w; cbn [map start_all forallb].
  - apply settles_now. reflexivity.
  - specialize (Hx w). destruct (f x w) as [w1 p]. cbn [snd] in Hx.
    specialize (IH w1). destruct (start_all (map f xs) w1) as [w2 ps].
    cbn [snd all_list] in *. apply pmap_settles, join2_settles; assumption.
Qed.

(** Plain calls made one after the other: the map ends with the first
    that throws. *)
Lemma call_all_settle (W X : Type) (f : X -> Sync W (Promise W unit))
    (good : X -> bool) (xs : list X) :
  Forall (fun x => forall w,
              match snd (f x w) with
              | Throw _ => good x = false
              | Ok p => settles_with (fun r => is_ok r = good x) p
              end) xs ->
  forall w,
    match snd (call_all (map f xs) w) with
    | Throw _ => forallb good xs = false
    | Ok promises =>
        settles_with (fun r => is_ok r = forallb good xs) (all_list promises)
    end.
Proof.
  induction 1 as [| x xs Hx _ IH]; intros w; cbn [map call_all forallb].
  - apply settles_now. reflexivity.
  - specialize (Hx w). destruct (f x w) as [w1 [p | e]]; cbn [snd] in *.
    + specialize (IH w1). destruct (call_all (map f xs) w1) as [w2 [ps | e]];
        cbn [snd all_list] in *.
      * apply pmap_settles, join2_settles; assumption.
      * rewrite IH. apply andb_false_r.
    + rewrite Hx. reflexivity.
Qed.

Lemma observe_for_each_selected thrown config flags
    (f : DatabaseConfig Log string string -> Async Log unit)
    (good : bool -> DbBehaviour -> bool) sch :
  (forall t who b log,
      settles_with (fun r => is_ok r = good t b)
                   (snd (f (probe_db_dropping t who b) log))) ->
  is_ok (snd (observe (for_each_selected (probe_dbs_dropping thrown config) flags f)
                      sch)) =
  forallb (fun entry => good (thrown (fst entry)) (snd entry))
          (filter (fun entry => includes flags (fst entry)) config).
Proof.
  intros Hf. unfold observe, for_each_selected, exec.
  rewrite selected_probe_dbs_dropping. unfold probe_dbs_dropping.
  rewrite map_map. cbn [snd fst].
  pose proof (@start_all_settle Log (string * DbBehaviour)
                (fun entry => f (probe_db_dropping (thrown (fst entry)) (fst entry)
                                                   (snd entry)))
                (fun entry => good (thrown (fst entry)) (snd entry))
                (filter (fun entry => includes flags (fst entry)) config)) as Hall.
  match goal with
  | |- context [start_all ?calls []] =>
      specialize (Hall ltac:(apply Forall_forall; intros; apply Hf) []);
      destruct (start_all calls []) as [w' promises]
  end.
  cbn [snd] in Hall. cbn [fst snd].
  exact (@run_settles_with Log unit _ _ (then_settles Hall) sch w').
Qed.

Lemma observe_call_each_selected thrown config flags
    (f : DatabaseConfig Log string string -> Sync Log (Promise Log unit))
    (good : bool -> DbBehaviour -> bool) sch :
  (forall t who b log,
      match snd (f (probe_db_dropping t who b) log) with
      | Throw _ => good t b = false
      | Ok p => settles_with (fun r => is_ok r = good t b) p
      end) ->
  is_ok (snd (observe (call_each_selected (probe_dbs_dropping thrown config) flags f)
                      sch)) =
  forallb (fun entry => good (thrown (fst entry)) (snd entry))
          (filter (fun entry => includes flags (fst entry)) config).
Proof.
  intros Hf. unfold observe, call_each_selected, exec.
  rewrite selected_probe_dbs_dropping. unfold probe_dbs_dropping.
  rewrite map_map. cbn [snd fst].
  pose proof (@call_all_settle Log (string * DbBehaviour)
                (fun entry => f (probe_db_dropping (thrown (fst entry)) (fst entry)
                                                   (snd entry)))
                (fun entry => good (thrown (fst entry)) (snd entry))
                (filter (fun entry => includes flags (fst entry)) config)) as Hall.
  match goal with
  | |- context [call_all ?calls []] =>
      specialize (Hall ltac:(apply Forall_forall; intros; apply Hf) []);
      destruct (call_all calls []) as [w' [promises | e]]
  end; cbn [snd] in Hall; cbn [fst snd run is_ok].
  - exact (@run_settles_with Log unit _ _ (then_settles Hall) sch w').
  - symmetry. exact Hall.
Qed.

Lemma forallb_same (A : Type) (f g : A -> bool) (l : list A) :
  (forall a, f a = g a) -> forallb f l = forallb g l.
Proof.
  intros Hsame. induction l as [| a l IH]; cbn [forallb]; [reflexivity |].
  rewrite Hsame, IH. reflexivity.
Qed.

Lemma multi_clean_outcome thrown config flags sch :
  is_ok (snd (observe (multi_clean_handler (probe_dbs_dropping thrown config) flags)
                      sch)) =
  forallb (fun entry => is_ok (clean_result (thrown (fst entry)) (snd entry)))
          (filter (fun entry => includes flags (fst entry)) config).
Proof.
  unfold multi_clean_handler.
  apply (@observe_for_each_selected thrown config flags _
           (fun t b => is_ok (clean_result t b))).
  intros t who b log.
  apply (@settles_with_impl _ _ (fun r' => r' = clean_result t b)).
  - intros r ->. reflexivity.
  - exact (emits_settles log (emits_clean (fun _ => true) t who b None)).
Qed.






(** X16: [create], [drop] and [clean] of the multi-database revision await
    a [Promise.all] over the selected databases.  Whatever the order in
    which the calls progress, and whether a failing drop rejects its
    promise or is thrown: [create] succeeds exactly when
    [prepareDbAndDisconnect] succeeds for every selected database; [drop]
    exactly when [dropDbAndDisconnect] does; [clean] exactly when, for
    every selected database, the drop does not throw and the preparation
    succeeds, a drop that rejects being ignored. *)
Theorem promise_all_commands_fail_when_one_call_fails thrown config flags sch :
  let chosen := filter (fun entry => includes flags (fst entry)) config in
  is_ok (snd (observe (multi_create_handler (probe_dbs_dropping thrown config) flags)
                      sch)) =
  forallb (fun entry => is_ok (on_prepare (snd entry))) chosen /\
  is_ok (snd (observe (multi_drop_handler (probe_dbs_dropping thrown config) flags)
                      sch)) =
  forallb (fun entry => is_ok (on_drop (snd entry))) chosen /\
  is_ok (snd (observe (multi_clean_handler (probe_dbs_dropping thrown config) flags)
                      sch)) =
  forallb (fun entry =>
             match on_drop (snd entry) with
             | Throw _ => negb (thrown (fst entry))
             | Ok _ => true
             end && is_ok (on_prepare (snd entry))) chosen.
Proof.
  cbn zeta. unfold multi_create_handler, multi_drop_handler.
  split; [| split].
  - apply (@observe_call_each_selected thrown config flags _
             (fun _ b => is_ok (on_prepare b))).
    intros t who b log. cbn [prepareDbAndDisconnect probe_db_dropping probe_db].
    unfold returning, probe. cbn [snd].
    apply settles_later. intros c w. apply settles_now. reflexivity.
  - apply (@observe_call_each_selected thrown config flags _
             (fun _ b => is_ok (on_drop b))).
    intros t who b log. cbn [dropDbAndDisconnect probe_db_dropping].
    unfold drop_behaviour.
    destruct (on_drop b) as [[] | e]; [| destruct t]; cbn [probe_call snd is_ok];
      try reflexivity;
      apply settles_later; intros c w; apply settles_now; reflexivity.
  - rewrite multi_clean_outcome. apply forallb_same. intros [who b]. cbn [fst snd].
    unfold clean_result, drop_behaviour.
    destruct (on_drop b) as [[] | e]; [| destruct (thrown who)]; reflexivity.
Qed.

(** ** The multi-database revision: nothing selected *)

Section NothingSelected.

Variables W Ctx Storage : Type.
Variable Umzug_up : UmzugConfig W Ctx Storage -> UpOptions -> Async W unit.
Variable globAsync : string -> Async W (list string).
Variables path_resolve path_basename : string -> string.
Variable dbs : list (string * DatabaseConfig W Ctx Storage).

Lemma selected_nil flags :
  (forall entry, In entry dbs -> ~ In (fst entry) flags) ->
  selected dbs flags = [].
Proof.
  intros Hnone. unfold selected.
  induction dbs as [| entry rest IH]; cbn [filter]; [reflexivity |].
  destruct (includes flags (fst entry)) eqn:E.
  - exfalso. apply (Hnone entry); [left; reflexivity | apply includes_In, E].
  - apply IH. intros e He. apply Hnone. right. exact He.
Qed.

(** X17: when no configured database is among the flags (no flag at all,
    or only names the configuration does not have), the handlers of the
    multi-database revision call nothing and succeed: the world is left
    as it was.  [apply-scripts] does so too when [--db] is absent. *)
Theorem nothing_selected_nothing_done target name env flags sch w :
  (forall entry, In entry dbs -> ~ In (fst entry) flags) ->
  exec (multi_apply_handler Umzug_up globAsync path_resolve path_basename dbs
                            target name env (Some flags)) sch w = (w, Ok tt, sch) /\
  exec (multi_apply_handler Umzug_up globAsync path_resolve path_basename dbs
                            target name env None) sch w = (w, Ok tt, sch) /\
  exec (multi_clean_handler dbs flags) sch w = (w, Ok tt, tl sch) /\
  exec (multi_drop_handler dbs flags) sch w = (w, Ok tt, tl sch) /\
  exec (multi_create_handler dbs flags) sch w = (w, Ok tt, tl sch).
Proof.
  intros Hnone.
  assert (Hempty : selected dbs [] = []).
  { apply selected_nil. intros entry _ []. }
  unfold multi_apply_handler, multi_clean_handler, multi_drop_handler,
    multi_create_handler, for_each_selected, call_each_selected, exec.
  rewrite (selected_nil flags Hnone), Hempty. repeat split.
Qed.

End NothingSelected.

(** A misspelt database name: nothing is cleaned and the command succeeds. *)
Lemma nothing_selected_witness :
  exec (multi_clean_handler (probe_dbs two_databases) ["a"]) [] [] = ([], Ok tt, []).
Proof.
  assert (Hnone : forall entry, In entry (probe_dbs two_databases) ->
                                ~ In (fst entry) ["a"]).
  { intros entry [<- | [<- | []]] [H | []]; discriminate H. }
  exact (proj1 (proj2 (proj2
           (@nothing_selected_nothing_done Log string string
              (probe_up two_databases) (probe_glob []) (fun p => p) (fun p => p)
              (probe_dbs two_databases) "remaining" None None ["a"] [] [] Hnone)))).
Defined.

(** ** The multi-database revision against the current one *)

Section Revisions.

Variables W Ctx Storage : Type.
Variable Umzug_create : UmzugCreateConfig -> CreateOptions -> Async W unit.
Variable dbs : list (string * DatabaseConfig W Ctx Storage).


(** X19: for a configured database the [add] of the multi-database
    revision differs from the current one in the environment only.  Its
    check is the current check without the test of the environment: it
    accepts whatever the current check accepts, and agrees with it, errors
    included, whenever the resolved environment is empty or supported.  Its
    handler names the file from the flag alone, so it agrees with the
    current handler when there is a flag or the database has no default
    environment. *)
Theorem earlier_add_differs_only_in_the_environment opts db :
  lookup dbs (add_db opts) = Some db ->
  (add_check dbs opts = Ok true -> multi_add_check dbs opts = Ok true) /\
  ((truthy (nullish (add_env opts) (defaultEnvironment db)) = true ->
    includes_opt (supportedEnvironments db)
                 (nullish (add_env opts) (defaultEnvironment db)) = true) ->
   multi_add_check dbs opts = add_check dbs opts) /\
  (add_env opts <> None \/ defaultEnvironment db = None ->
   multi_add_handler Umzug_create dbs opts = add_handler Umzug_create dbs opts).
Proof.
  intros Hdb.
  assert (Hsame : (truthy (nullish (add_env opts) (defaultEnvironment db)) = true ->
                   includes_opt (supportedEnvironments db)
                                (nullish (add_env opts) (defaultEnvironment db)) = true) ->
                  multi_add_check dbs opts = add_check dbs opts).
  { intros Hsupported. unfold multi_add_check, add_check.
    rewrite (@getEnv_found _ _ _ _ _ _ _ Hdb). unfold with_db. rewrite Hdb.
    destruct (is_seed (add_type opts) && negb (truthy (add_env opts)));
      [reflexivity |].
    destruct (is_migration (add_type opts) && truthy (add_env opts));
      [reflexivity |].
    destruct (truthy (nullish (add_env opts) (defaultEnvironment db)));
      [rewrite (Hsupported eq_refl) |]; reflexivity. }
  split; [| split; [exact Hsame |]].
  - intros Hcheck. rewrite Hsame; [exact Hcheck |].
    intros Htruthy. revert Hcheck. unfold add_check.
    rewrite (@getEnv_found _ _ _ _ _ _ _ Hdb). unfold with_db. rewrite Hdb.
    destruct (is_seed (add_type opts) && negb (truthy (add_env opts)));
      [discriminate |].
    destruct (is_migration (add_type opts) && truthy (add_env opts));
      [discriminate |].
    rewrite Htruthy.
    destruct (includes_opt (supportedEnvironments db)
                (nullish (add_env opts) (defaultEnvironment db)));
      [reflexivity | discriminate].
  - intros Hflag. unfold multi_add_handler, add_handler.
    rewrite Hdb, (@getEnv_found _ _ _ _ _ _ _ Hdb).
    replace (nullish (add_env opts) (defaultEnvironment db)) with (add_env opts);
      [reflexivity |].
    destruct (add_env opts) as [given |]; [reflexivity |].
    destruct Hflag as [Hflag | ->]; [congruence | reflexivity].
Qed.

(** X20: [add] of the multi-database revision for a name the configuration
    does not have.  The check tests the environment against the type
    first; once that passes it throws the not-configured error.  The
    handler, were it reached, rejects with the same error and calls
    nothing. *)
Theorem earlier_add_reports_unknown_database opts :
  lookup dbs (add_db opts) = None ->
  multi_add_check dbs opts =
  Throw (if is_seed (add_type opts) && negb (truthy (add_env opts))
         then seed_needs_environment
         else if is_migration (add_type opts) && truthy (add_env opts)
              then migration_forbids_environment
              else not_configured (add_db opts)) /\
  (forall sch w,
      exec (multi_add_handler Umzug_create dbs opts) sch w =
      (w, Throw (not_configured (add_db opts)), sch)).
Proof.
  intros Hdb. unfold multi_add_check, multi_add_handler. rewrite Hdb. split.
  - destruct (is_seed (add_type opts) && negb (truthy (add_env opts)));
      [reflexivity |].
    destruct (is_migration (add_type opts) && truthy (add_env opts)); reflexivity.
  - reflexivity.
Qed.

(** X21: the [apply-scripts] check of the multi-database revision is the
    current one without the lookup and the test of the environment: it
    accepts whatever the current check accepts, and agrees with it, errors
    included, for a configured database whose resolved environment is
    supported. *)
Theorem earlier_apply_check_ignores_the_environment opts :
  (apply_check dbs opts = Ok true ->
   multi_apply_check (apply_target opts) (apply_name opts) = Ok true) /\
  (forall db,
      lookup dbs (apply_db opts) = Some db ->
      includes_opt (supportedEnvironments db)
                   (nullish (apply_env opts) (defaultEnvironment db)) = true ->
      multi_apply_check (apply_target opts) (apply_name opts) = apply_check dbs opts).
Proof.
  unfold apply_check, multi_apply_check. split.
  - destruct (negb (needsSpecificScript (apply_target opts)) && truthy (apply_name opts));
      [discriminate |].
    destruct (needsSpecificScript (apply_target opts) && negb (truthy (apply_name opts)));
      [discriminate | intros _; reflexivity].
  - intros db Hdb Henv. rewrite (@getEnv_found _ _ _ _ _ _ _ Hdb).
    unfold with_db. rewrite Hdb, Henv.
    destruct (negb (needsSpecificScript (apply_target opts)) && truthy (apply_name opts));
      [reflexivity |].
    destruct (needsSpecificScript (apply_target opts) && negb (truthy (apply_name opts)));
      reflexivity.
Qed.

End Revisions.


(** With [--env staging] the two revisions of [add] ask the same of the
    engine. *)
Lemma earlier_add_witness :
  multi_add_handler recording_create
                    [("db1", described_db _ "scripts" "sql" None)] add_seed_for_staging =
  add_handler recording_create
              [("db1", described_db _ "scripts" "sql" None)] add_seed_for_staging.
Proof.
  apply (@earlier_add_differs_only_in_the_environment _ unit unit recording_create
           [("db1", described_db _ "scripts" "sql" None)] add_seed_for_staging
           (described_db _ "scripts" "sql" None) eq_refl).
  left. discriminate.
Defined.

(** [add db2 ...] when only [db1] is configured. *)
Lemma earlier_add_unknown_witness :
  multi_add_check [("db1", described_db unit "scripts" "sql" None)]
                  {| add_db := "db2"; add_type := migration; add_name := "add-users";
                     add_env := None; add_format := None |} =
  Throw (not_configured "db2").
Proof.
  exact (proj1 (@earlier_add_reports_unknown_database unit unit unit (fun _ _ => resolved tt)
                  [("db1", described_db unit "scripts" "sql" None)]
                  {| add_db := "db2"; add_type := migration; add_name := "add-users";
                     add_env := None; add_format := None |} eq_refl)).
Defined.

(** [apply-scripts only 001 --db A --env staging] passes both checks. *)
Lemma earlier_apply_check_witness :
  multi_apply_check "only" (Some "001") = Ok true.
Proof.
  apply (proj1 (@earlier_apply_check_ignores_the_environment Log string string
                  (probe_dbs two_databases)
                  {| apply_target := "only"; apply_name := Some "001";
                     apply_db := "A"; apply_env := Some "staging" |})).
  reflexivity.
Defined.

(** ** wrapMigration without hooks *)

Section NoHooks.

Variables W Ctx : Type.

(** X22: [wrapMigration] keeps the name and the path of the migration
    whatever the hooks; with neither hook, the wrapped [up] and [down] run
    the migration's own from the world they are called in and settle as it
    does: only turns are added. *)
Theorem wrapMigration_without_hooks hooks (m : RunnableMigration W Ctx)
    (p : MigrationParams Ctx) sch w :
  name (wrapMigration hooks m) = name m /\
  path (wrapMigration hooks m) = path m /\
  let bare := wrapMigration {| runBefore := None; runAfter := None |} m in
  exec (up bare p) sch w =
  match exec (up m p) (tl sch) w with
  | (w1, Ok _, sch1) => (w1, Ok tt, tl (tl sch1))
  | (w1, Throw e, sch1) => (w1, Throw e, tl sch1)
  end /\
  (forall m_down,
      down m = Some m_down ->
      exists bare_down,
        down bare = Some bare_down /\
        exec (bare_down p) sch w =
        match exec (m_down p) (tl sch) w with
        | (w1, Ok _, sch1) => (w1, Ok tt, tl (tl sch1))
        | (w1, Throw e, sch1) => (w1, Throw e, tl sch1)
        end).
Proof.
  assert (Hstep : forall step : MigrationParams Ctx -> Async W unit,
             exec (wrapped_step {| runBefore := None; runAfter := None |} step p) sch w =
             match exec (step p) (tl sch) w with
             | (w1, Ok _, sch1) => (w1, Ok tt, tl (tl sch1))
             | (w1, Throw e, sch1) => (w1, Throw e, tl sch1)
             end).
  { intros step. unfold wrapped_step. cbn [runBefore runAfter await_hook].
    rewrite exec_bind, exec_resolved, exec_bind.
    destruct (exec (step p) (tl sch) w) as [[w1 [[] | e]] sch1]; [| reflexivity].
    rewrite exec_bind, exec_resolved, exec_resolved. reflexivity. }
  split; [reflexivity |]. split; [reflexivity |]. cbn zeta. split.
  - apply Hstep.
  - intros m_down Hdown. cbn [down wrapMigration]. rewrite Hdown.
    eexists. split; [reflexivity | apply Hstep].
Qed.

End NoHooks.

(** Without hooks the wrapped [down] logs what the migration's [down] logs. *)
Lemma wrapMigration_without_hooks_witness :
  exists bare_down,
    down (wrapMigration {| runBefore := None; runAfter := None |}
                        (probe_migration "m" (Ok tt) (Some (Ok tt)))) = Some bare_down /\
    exec (bare_down sample_params) [] [] =
    ([Invoked "m" downOp; Completed "m" downOp true], Ok tt, []).
Proof.
  destruct (proj2 (proj2 (proj2
              (@wrapMigration_without_hooks Log string
                 {| runBefore := None; runAfter := None |}
                 (probe_migration "m" (Ok tt) (Some (Ok tt))) sample_params [] [])))
              _ eq_refl) as (bare_down & Hdown & Hrun).
  exists bare_down. split; [exact Hdown |]. rewrite Hrun. reflexivity.
Defined.
